(** * TiKo offline-first resilience subsystem

    A shallow embedding of the four modules that make up the offline
    core of the application:

    - [OfflineStorage]   (src/lib/offline-storage.ts)  the Durable Store,
    - [BackgroundSync]   (src/lib/background-sync.ts)  the Sync Queue Manager,
    - [ServiceWorker]    (public/sw.js)                the Cache Strategy Engine,
    - [Notifications]    (src/lib/notification.ts)     the reminder scheduler.

    JavaScript numbers that hold counts and millisecond timestamps are
    integers ([Z]); untyped ([any]) payloads are [Json] values; the
    asynchronous methods are functions in a state-and-exception monad
    over the database, one atomic step per awaited call.

    A JavaScript string is written with one character for each of its
    UTF-16 code units, so that the strings written here are those whose
    code units are below 256; comparing two of them character by
    character is comparing them code unit by code unit.  The fields of
    an object are listed in the order JavaScript enumerates them, which
    for names that are not array indices is the order they were written
    in; the names the program adds itself ([id], [status],
    [isOptimistic], [syncStatus], [cachedAt], ...) are of that kind. *)

From stdpp Require Import base numbers list strings pretty gmap sorting.

#[local] Open Scope string_scope.
#[local] Open Scope Z_scope.
#[local] Open Scope list_scope.
#[local] Set Warnings "-register-all".

(** ** JSON payloads *)

Inductive Json : Type :=
| JNull
| JBool (b : bool)
| JNum (n : Z)
| JStr (s : string)
| JArr (items : list Json)
| JObj (fields : list (string * Json)).

Module Js.

(** JavaScript truthiness of a JSON value. *)
Definition truthy (j : Json) : bool :=
  match j with
  | JNull => false
  | JBool b => b
  | JNum n => negb (n =? 0)
  | JStr s => negb (String.eqb s "")
  | JArr _ | JObj _ => true
  end.

Fixpoint assoc {A : Type} (k : string) (l : list (string * A)) : option A :=
  match l with
  | [] => None
  | (k', v) :: l' => if String.eqb k k' then Some v else assoc k l'
  end.

(** [o.k] on a non-null value: [undefined] when the property is absent.
    Only own properties of objects are looked at; the properties read
    by the program ([id], [order], [tickets], [orderId], [payments])
    are never index or built-in properties of arrays and strings. *)
Definition prop (k : string) (j : Json) : option Json :=
  match j with
  | JObj fs => assoc k fs
  | _ => None
  end.

(** [{...o, k: v}] on a list of fields: the last write of a key wins,
    in the position of its first occurrence. *)
Fixpoint set_field (k : string) (v : Json) (fs : list (string * Json))
  : list (string * Json) :=
  match fs with
  | [] => [(k, v)]
  | (k', v') :: fs' =>
      if String.eqb k k' then (k, v) :: fs' else (k', v') :: set_field k v fs'
  end.

Fixpoint index_fields (i : nat) (l : list Json) : list (string * Json) :=
  match l with
  | [] => []
  | x :: l' => (pretty i, x) :: index_fields (S i) l'
  end.

Fixpoint chars (s : string) : list Json :=
  match s with
  | EmptyString => []
  | String c s' => JStr (String c EmptyString) :: chars s'
  end.

(** The own enumerable properties copied by a spread [{...j}] and
    listed by [Object.entries(j)]. *)
Definition own_fields (j : Json) : list (string * Json) :=
  match j with
  | JObj fs => fs
  | JArr l => index_fields 0 l
  | JStr s => index_fields 0 (chars s)
  | JNull | JBool _ | JNum _ => []
  end.

(** [s.includes(sub)] *)
Fixpoint includes (sub s : string) : bool :=
  String.prefix sub s ||
  match s with
  | EmptyString => false
  | String _ s' => includes sub s'
  end.

(** [s.startsWith(p)] *)
Definition startsWith (p s : string) : bool := String.prefix p s.

End Js.

(** ** Asynchronous methods

    A method runs against a store and either resolves with a value or
    rejects; writes made before a rejection stay (every write is its
    own transaction). *)

Module Async.

Inductive Res (A : Type) : Type :=
| Ok (a : A)
| Throw (e : string).
#[global] Arguments Ok {A} a.
#[global] Arguments Throw {A} e.

Definition M (St A : Type) : Type := St → Res A * St.

Section Monad.
Context {St : Type}.

Definition ret {A} (a : A) : M St A := λ st, (Ok a, st).
Definition throw {A} (e : string) : M St A := λ st, (Throw e, st).
Definition bind {A B} (m : M St A) (f : A → M St B) : M St B :=
  λ st, match m st with
        | (Ok a, st') => f a st'
        | (Throw e, st') => (Throw e, st')
        end.
(** [try { m } catch (error) { h error }] *)
Definition try_catch {A} (m : M St A) (h : string → M St A) : M St A :=
  λ st, match m st with
        | (Ok a, st') => (Ok a, st')
        | (Throw e, st') => h e st'
        end.
Definition gets {A} (f : St → A) : M St A := λ st, (Ok (f st), st).
Definition modify (f : St → St) : M St unit := λ st, (Ok tt, f st).

End Monad.

Notation "'let!' x := m 'in' k" := (bind m (λ x, k))
  (at level 10, x name, m at level 100, k at level 200).
Notation "m >>> k" := (bind m (λ _, k))
  (at level 100, k at level 200, right associativity).

(** [for (const x of l) { await f(x) }] *)
Fixpoint for_each {St A} (l : list A) (f : A → M St unit) : M St unit :=
  match l with
  | [] => ret tt
  | x :: l' => f x >>> for_each l' f
  end.

End Async.

(** ** The Durable Store (src/lib/offline-storage.ts) *)

Module OfflineStorage.
Import Async.

(** *** IndexedDB object stores

    IndexedDB keys are typed: a number, a string and an array of keys
    are different keys; numbers sort before strings and strings before
    arrays, strings by their code units, arrays element by element with
    a proper prefix first.  (Dates and binary keys do not occur: the
    records are JSON values.)  An object store is kept as an
    association list in key order, which is the order [getAll]
    returns. *)

Inductive IDBKey : Type :=
| KeyNum (n : Z)
| KeyStr (s : string)
| KeyArr (items : list IDBKey).

#[export] Instance IDBKey_eq_dec : EqDecision IDBKey.
Proof.
  refine (fix go (a b : IDBKey) {struct a} : Decision (a = b) :=
            match a, b with
            | KeyNum x, KeyNum y => cast_if (decide (x = y))
            | KeyStr x, KeyStr y => cast_if (decide (x = y))
            | KeyArr xs, KeyArr ys =>
                cast_if ((fix go_list (xs ys : list IDBKey) {struct xs}
                            : Decision (xs = ys) :=
                            match xs, ys with
                            | [], [] => left _
                            | x :: xs', y :: ys' =>
                                cast_if_and (go x y) (go_list xs' ys')
                            | _, _ => right _
                            end) xs ys)
            | _, _ => right _
            end); abstract congruence.
Defined.

Fixpoint key_ltb (a b : IDBKey) {struct a} : bool :=
  match a, b with
  | KeyNum x, KeyNum y => x <? y
  | KeyNum _, (KeyStr _ | KeyArr _) => true
  | KeyStr _, KeyNum _ => false
  | KeyStr x, KeyStr y => String.ltb x y
  | KeyStr _, KeyArr _ => true
  | KeyArr _, (KeyNum _ | KeyStr _) => false
  | KeyArr xs, KeyArr ys =>
      (fix items_ltb (xs ys : list IDBKey) {struct xs} : bool :=
         match xs, ys with
         | [], [] => false
         | [], _ :: _ => true
         | _ :: _, [] => false
         | x :: xs', y :: ys' =>
             if key_ltb x y then true
             else if decide (x = y) then items_ltb xs' ys'
             else false
         end) xs ys
  end.

Abbreviation ObjStore R := (list (IDBKey * R)).

Section ObjStore.
Context {R : Type}.

(** [store.get(key)] *)
Fixpoint store_get (k : IDBKey) (s : ObjStore R) : option R :=
  match s with
  | [] => None
  | (k', r) :: s' => if decide (k = k') then Some r else store_get k s'
  end.

(** [store.put(record)] once the key is known: upsert, in key order. *)
Fixpoint store_put (k : IDBKey) (r : R) (s : ObjStore R) : ObjStore R :=
  match s with
  | [] => [(k, r)]
  | (k', r') :: s' =>
      if decide (k = k') then (k, r) :: s'
      else if key_ltb k k' then (k, r) :: (k', r') :: s'
      else (k', r') :: store_put k r s'
  end.

(** [store.delete(key)] *)
Definition store_delete (k : IDBKey) (s : ObjStore R) : ObjStore R :=
  filter (λ kr, kr.1 ≠ k) s.

(** [store.getAll()] *)
Definition store_getAll (s : ObjStore R) : list R := s.*2.

End ObjStore.

(** *** Stored records *)

Inductive SyncStatus : Type := synced | pending | failed.

#[export] Instance SyncStatus_eq_dec : EqDecision SyncStatus.
Proof. solve_decision. Defined.

Record StoredEvent : Type := mkStoredEvent {
  id : string;
  title : string;
  description : string;
  startDate : string;
  endDate : string;
  venue : Json;
  category : Json;
  ticketTypes : list Json;
  imageUrl : option string;
  status : string;
  cachedAt : Z;
  syncStatus : SyncStatus
}.

Record FailedRequest : Type := mkFailedRequest {
  fr_id : option Z;
  url : string;
  method : string;
  headers : list (string * string);
  body : option string;
  timestamp : Z;
  retryCount : Z;
  maxRetries : Z
}.

Record UserPreference : Type := mkUserPreference {
  key : string;
  value : Json;
  pref_timestamp : Z
}.

(** The database [TiKoOfflineDB]: one object store per entry of
    [config.stores], and the key generator of the auto-increment
    store [failed-requests]. *)
Record DB : Type := mkDB {
  events : ObjStore StoredEvent;
  orders : ObjStore Json;
  tickets : ObjStore Json;
  failed_requests : ObjStore FailedRequest;
  failed_requests_next : Z;
  user_preferences : ObjStore UserPreference;
  cart_items : ObjStore Json
}.

Definition empty_db : DB := mkDB [] [] [] [] 1 [] [].

(** *** Methods on the database *)

Abbreviation M := (Async.M DB).

(** A value as a key: numbers, strings and arrays of valid keys are
    valid keys; [null], booleans and objects are not. *)
Fixpoint key_of_json (j : Json) : option IDBKey :=
  match j with
  | JNum n => Some (KeyNum n)
  | JStr s => Some (KeyStr s)
  | JArr l =>
      KeyArr <$>
        (fix keys (l : list Json) : option (list IDBKey) :=
           match l with
           | [] => Some []
           | x :: l' =>
               match key_of_json x, keys l' with
               | Some k, Some ks => Some (k :: ks)
               | _, _ => None
               end
           end) l
  | JNull | JBool _ | JObj _ => None
  end.

(** The key of a record stored under key path [id]; a record without
    an [id] that is a valid key makes [put] fail with a [DataError]. *)

Definition key_path_id (record : Json) : option IDBKey :=
  Js.prop "id" record ≫= key_of_json.

Definition set_events (f : ObjStore StoredEvent → ObjStore StoredEvent) (db : DB) : DB :=
  mkDB (f (events db)) (orders db) (tickets db) (failed_requests db)
       (failed_requests_next db) (user_preferences db) (cart_items db).
Definition set_orders (f : ObjStore Json → ObjStore Json) (db : DB) : DB :=
  mkDB (events db) (f (orders db)) (tickets db) (failed_requests db)
       (failed_requests_next db) (user_preferences db) (cart_items db).
Definition set_tickets (f : ObjStore Json → ObjStore Json) (db : DB) : DB :=
  mkDB (events db) (orders db) (f (tickets db)) (failed_requests db)
       (failed_requests_next db) (user_preferences db) (cart_items db).
Definition set_failed_requests
  (f : ObjStore FailedRequest → ObjStore FailedRequest) (db : DB) : DB :=
  mkDB (events db) (orders db) (tickets db) (f (failed_requests db))
       (failed_requests_next db) (user_preferences db) (cart_items db).
Definition set_failed_requests_next (n : Z) (db : DB) : DB :=
  mkDB (events db) (orders db) (tickets db) (failed_requests db)
       n (user_preferences db) (cart_items db).
Definition set_user_preferences
  (f : ObjStore UserPreference → ObjStore UserPreference) (db : DB) : DB :=
  mkDB (events db) (orders db) (tickets db) (failed_requests db)
       (failed_requests_next db) (f (user_preferences db)) (cart_items db).
Definition set_cart_items (f : ObjStore Json → ObjStore Json) (db : DB) : DB :=
  mkDB (events db) (orders db) (tickets db) (failed_requests db)
       (failed_requests_next db) (user_preferences db) (f (cart_items db)).

(** [put(storeName, data)], one instance per object store. *)
Definition put_event (e : StoredEvent) : M unit :=
  modify (set_events (store_put (KeyStr (id e)) e)).

(** The store [orders] has a unique index on [orderNumber]: a record
    whose [orderNumber] is a valid key is refused with a
    [ConstraintError] when another record, under a different [id],
    holds the same [orderNumber]. *)
Definition orderNumber_key (o : Json) : option IDBKey :=
  Js.prop "orderNumber" o ≫= key_of_json.

Definition orderNumber_taken (k : IDBKey) (o : Json) (s : ObjStore Json) : bool :=
  match orderNumber_key o with
  | Some n =>
      existsb (λ kr, negb (bool_decide (kr.1 = k))
                     && bool_decide (orderNumber_key kr.2 = Some n)) s
  | None => false
  end.

Definition put_order (o : Json) : M unit :=
  match key_path_id o with
  | Some k =>
      λ db, if orderNumber_taken k o (orders db) then (Throw "ConstraintError", db)
            else modify (set_orders (store_put k o)) db
  | None => throw "DataError"
  end.

Definition put_ticket (t : Json) : M unit :=
  match key_path_id t with
  | Some k => modify (set_tickets (store_put k t))
  | None => throw "DataError"
  end.

Definition put_cart_item (c : Json) : M unit :=
  match key_path_id c with
  | Some k => modify (set_cart_items (store_put k c))
  | None => throw "DataError"
  end.

Definition put_user_preference (p : UserPreference) : M unit :=
  modify (set_user_preferences (store_put (KeyStr (key p)) p)).

(** [failed-requests] is created with [autoIncrement: true]: a record
    without an [id] gets the next generated number, which is written
    into the record; an explicit number at or above the generator
    moves the generator past it. *)
Definition with_fr_id (n : Z) (r : FailedRequest) : FailedRequest :=
  mkFailedRequest (Some n) (url r) (method r) (headers r) (body r)
                  (timestamp r) (retryCount r) (maxRetries r).

Definition put_failed_request (r : FailedRequest) : M unit :=
  match fr_id r with
  | Some n =>
      modify (λ db,
        set_failed_requests_next (Z.max (failed_requests_next db) (n + 1))
          (set_failed_requests (store_put (KeyNum n) r) db))
  | None =>
      modify (λ db,
        let n := failed_requests_next db in
        set_failed_requests_next (n + 1)
          (set_failed_requests (store_put (KeyNum n) (with_fr_id n r)) db))
  end.

(** [get(storeName, key)] and [delete(storeName, key)] *)
Definition get_order (k : IDBKey) : M (option Json) :=
  gets (λ db, store_get k (orders db)).
Definition get_event (k : IDBKey) : M (option StoredEvent) :=
  gets (λ db, store_get k (events db)).
Definition get_failed_request (k : IDBKey) : M (option FailedRequest) :=
  gets (λ db, store_get k (failed_requests db)).
Definition delete_event (k : IDBKey) : M unit :=
  modify (set_events (store_delete k)).
Definition delete_failed_request (k : IDBKey) : M unit :=
  modify (set_failed_requests (store_delete k)).

(** [number.toString()] *)
Definition toString (n : Z) : string := pretty n.

(** *** Event, order and ticket caches *)

Definition cacheEvent (now : Z) (event : StoredEvent) : M unit :=
  put_event (mkStoredEvent (id event) (title event) (description event)
               (startDate event) (endDate event) (venue event)
               (category event) (ticketTypes event) (imageUrl event)
               (status event) now synced).

Definition getCachedEvents : M (list StoredEvent) :=
  gets (λ db, store_getAll (events db)).

(** [{...x, cachedAt: Date.now(), syncStatus: 'synced'}] *)
Definition stamp_synced (now : Z) (x : Json) : Json :=
  JObj (Js.set_field "syncStatus" (JStr "synced")
          (Js.set_field "cachedAt" (JNum now) (Js.own_fields x))).

Definition cacheOrder (now : Z) (order : Json) : M unit :=
  put_order (stamp_synced now order).

Definition cacheTicket (now : Z) (ticket : Json) : M unit :=
  put_ticket (stamp_synced now ticket).

(** *** Failed request management *)

Definition addFailedRequest (request : FailedRequest) : M unit :=
  let failedRequest :=
    mkFailedRequest (fr_id request) (url request) (method request)
                    (headers request) (body request) (timestamp request)
                    0 3 in
  put_failed_request failedRequest.

Definition getFailedRequests : M (list FailedRequest) :=
  gets (λ db, store_getAll (failed_requests db)).

(** [{ ...existing, ...updates }] for the one update the program
    makes, [{ retryCount }]. *)
Definition updateFailedRequest (id : Z) (newRetryCount : Z) : M unit :=
  let! existing := get_failed_request (KeyStr (toString id)) in
  match existing with
  | Some e =>
      put_failed_request
        (mkFailedRequest (fr_id e) (url e) (method e) (headers e) (body e)
                         (timestamp e) newRetryCount (maxRetries e))
  | None => ret tt
  end.

Definition removeFailedRequest (id : Z) : M unit :=
  delete_failed_request (KeyStr (toString id)).

(** *** User preferences and the offline cart *)

Definition setUserPreference (now : Z) (k : string) (v : Json) : M unit :=
  put_user_preference (mkUserPreference k v now).

(** [rand] is the suffix produced by [Math.random().toString(36)]. *)
Definition addToOfflineCart (now : Z) (rand : string) (item : Json) : M unit :=
  let cartItem :=
    JObj (Js.set_field "syncStatus" (JStr "pending")
           (Js.set_field "timestamp" (JNum now)
             (Js.set_field "id" (JStr ("cart-" +:+ toString now +:+ "-" +:+ rand))
               (Js.own_fields item)))) in
  put_cart_item cartItem.

(** *** Cache management *)

Definition default_maxAge : Z := 7 * 24 * 60 * 60 * 1000.

(** The bodies of the two loops of [clearExpiredCache]. *)
Definition sweep_event (cutoff : Z) (event : StoredEvent) : M unit :=
  if cachedAt event <? cutoff then delete_event (KeyStr (id event)) else ret tt.

Definition sweep_request (cutoff : Z) (request : FailedRequest) : M unit :=
  if (timestamp request <? cutoff) || (maxRetries request <=? retryCount request)
  then match fr_id request with
       | Some n => removeFailedRequest n
       | None => throw "TypeError"
       end
  else ret tt.

Definition clearExpiredCache (now : Z) (maxAge : option Z) : M unit :=
  let cutoff := now - default default_maxAge maxAge in
  let! events := getCachedEvents in
  for_each events (sweep_event cutoff) >>>
  let! failedRequests := getFailedRequests in
  for_each failedRequests (sweep_request cutoff).

(** [event.cachedAt < cutoff] *)
Definition expired (cutoff : Z) (e : StoredEvent) : bool := cachedAt e <? cutoff.

(** The object store [events] holds every event under its own [id],
    once: what [put] with key path [id] maintains. *)
Definition events_keyed (s : ObjStore StoredEvent) : Prop :=
  NoDup s.*1 ∧ Forall (λ kr, kr.1 = KeyStr (id kr.2)) s.

(** Two databases that differ at most in [failed-requests]. *)
Definition same_caches (db db' : DB) : Prop :=
  events db' = events db ∧ orders db' = orders db ∧ tickets db' = tickets db ∧
  user_preferences db' = user_preferences db ∧ cart_items db' = cart_items db.

(** [markForSync('events', id)] *)
Definition markForSync (id : string) : M unit :=
  let! item := get_event (KeyStr id) in
  match item with
  | Some e =>
      put_event (mkStoredEvent (OfflineStorage.id e) (title e) (description e)
                   (startDate e) (endDate e) (venue e) (category e)
                   (ticketTypes e) (imageUrl e) (status e) (cachedAt e) pending)
  | None => ret tt
  end.

(** The keys of a store come in strictly increasing order. *)
Definition key_ordered {R : Type} (s : ObjStore R) : Prop :=
  StronglySorted (λ a b, key_ltb a.1 b.1 = true) s.

(** *** Reading back *)



(** [preference ? preference.value : null] *)
Definition getUserPreference (k : string) : M Json :=
  let! preference := gets (λ db, store_get (KeyStr k) (user_preferences db)) in
  ret (match preference with Some p => value p | None => JNull end).

Definition getOfflineCart : M (list Json) :=
  gets (λ db, store_getAll (cart_items db)).

Definition clearOfflineCart : M unit :=
  modify (set_cart_items (λ _, [])).

(** [getPendingSyncItems('events')]: the entries of the index
    [syncStatus] under the key ['pending'], in primary key order. *)
Definition getPendingSyncItems : M (list StoredEvent) :=
  gets (λ db, filter (λ e, syncStatus e = pending) (store_getAll (events db))).

(** A storage method that does not write to [failed-requests]. *)
Definition keeps_queue {A} (m : M A) : Prop :=
  ∀ db, failed_requests (m db).2 = failed_requests db ∧
        failed_requests_next (m db).2 = failed_requests_next db.

(** The queue store holds every entry under the number in its [id],
    and the key generator is past all of them: what [put] on an
    auto-increment store maintains. *)
Definition queue_keyed (db : DB) : Prop :=
  Forall (λ kr, ∃ n, kr.1 = KeyNum n ∧ fr_id kr.2 = Some n ∧ n < failed_requests_next db)
         (failed_requests db).

End OfflineStorage.

(** ** The Sync Queue Manager (src/lib/background-sync.ts) *)

Module BackgroundSync.
Import Async OfflineStorage.

Inductive OpType : Type := Order | Payment | Ticket | Cart | UserPreference.
Inductive Action : Type := Create | Update | Delete.
Inductive Priority : Type := High | Medium | Low.

#[export] Instance OpType_eq_dec : EqDecision OpType.
Proof. solve_decision. Defined.
#[export] Instance Action_eq_dec : EqDecision Action.
Proof. solve_decision. Defined.
#[export] Instance Priority_eq_dec : EqDecision Priority.
Proof. solve_decision. Defined.

Record SyncOperation : Type := mkSyncOperation {
  id : string;
  type : OpType;
  action : Action;
  data : Json;
  endpoint : string;
  method : string;
  priority : Priority;
  retryCount : Z;
  maxRetries : Z;
  timestamp : Z;
  userId : option string
}.

Record SyncResult : Type := mkSyncResult {
  success : bool;
  operation : SyncOperation;
  error : option string;
  response : option Json
}.

(** What [fetch] and [response.json()] do for one network attempt;
    [json] is [None] when the body of the answer does not parse. *)
Inductive FetchOutcome : Type :=
| NetworkError (message : string)
| Http (status : Z) (statusText : string) (json : option Json).

(** The environment of one attempt: the outcome of the request, the
    values [Date.now()] and [Math.random()] yield while its result is
    handled, and the message of the [SyntaxError] the engine raises
    when [response.json()] is given a body that is not JSON. *)
Record Reply : Type := mkReply {
  outcome : FetchOutcome;
  now : Z;
  rand : string;
  syntaxError : string
}.

(** [response.ok] *)
Definition ok (status : Z) : bool := (200 <=? status) && (status <=? 299).

(** A confirmed success: an answer with a 2xx status whose body parses. *)
Definition succeeds (r : Reply) : bool :=
  match outcome r with
  | Http status _ (Some _) => ok status
  | _ => false
  end.

Definition retryDelays : list Z := [1000; 5000; 15000; 30000; 60000].

(** *** Updating the local cache after a successful operation *)

(** [response.k]: reading a property of [null] throws. *)
Definition get_prop (k : string) (j : Json) : M (option Json) :=
  match j with
  | JNull => throw "TypeError"
  | _ => ret (Js.prop k j)
  end.

(** [for (const ticket of tickets)]: arrays and strings are iterable. *)
Definition iterate (j : Json) : M (list Json) :=
  match j with
  | JArr l => ret l
  | JStr s => ret (Js.chars s)
  | _ => throw "TypeError"
  end.

(** [order.payments = order.payments || []; order.payments.push(response)] *)
Definition push_payment (response : Json) (order : Json) : M Json :=
  match Js.prop "payments" order with
  | Some (JArr l) =>
      ret (JObj (Js.set_field "payments" (JArr (l ++ [response])) (Js.own_fields order)))
  | Some p =>
      if Js.truthy p then throw "TypeError"
      else ret (JObj (Js.set_field "payments" (JArr [response]) (Js.own_fields order)))
  | None =>
      ret (JObj (Js.set_field "payments" (JArr [response]) (Js.own_fields order)))
  end.

Definition handleSuccessfulOperation (now : Z) (rand : string)
    (operation : SyncOperation) (response : Json) : M unit :=
  try_catch
    (match type operation with
     | Order =>
         if decide (action operation = Create) then
           let! order := get_prop "order" response in
           match order with
           | Some order =>
               if Js.truthy order then
                 cacheOrder now order >>>
                 let! tickets := get_prop "tickets" response in
                 match tickets with
                 | Some tickets =>
                     if Js.truthy tickets then
                       let! l := iterate tickets in
                       for_each l (cacheTicket now)
                     else ret tt
                 | None => ret tt
                 end
               else ret tt
           | None => ret tt
           end
         else ret tt
     | Payment =>
         let! orderId := get_prop "orderId" response in
         match orderId with
         | Some orderId =>
             if Js.truthy orderId then
               match key_of_json orderId with
               | Some k =>
                   let! order := get_order k in
                   match order with
                   | Some order =>
                       let! order' := push_payment response order in
                       cacheOrder now order'
                   | None => ret tt
                   end
               | None => throw "DataError"
               end
             else ret tt
         | None => ret tt
         end
     | Cart =>
         if decide (action operation = Create)
         then addToOfflineCart now rand response
         else ret tt
     | UserPreference =>
         if bool_decide (action operation = Update) && Js.truthy (data operation) then
           for_each (Js.own_fields (data operation))
                    (λ kv, setUserPreference now kv.1 kv.2)
         else ret tt
     | Ticket => ret tt
     end)
    (λ _, ret tt).

(** *** One network attempt *)

Definition failure (operation : SyncOperation) (message : string) : SyncResult :=
  mkSyncResult false operation (Some message) None.

Definition executeOperation (operation : SyncOperation) (r : Reply) : M SyncResult :=
  try_catch
    (match outcome r with
     | NetworkError message => throw message
     | Http status statusText json =>
         if negb (ok status)
         then throw ("HTTP " +:+ toString status +:+ ": " +:+ statusText)
         else match json with
              | None => throw (syntaxError r)
              | Some responseData =>
                  handleSuccessfulOperation (now r) (rand r) operation responseData >>>
                  ret (mkSyncResult true operation None (Some responseData))
              end
     end)
    (λ message, ret (failure operation message)).

(** *** The manager and its surroundings

    The queue is an array of references to operation objects; the
    sorted copy made by a drain pass shares those objects, so they live
    in a heap and the queue holds their addresses.  [log] records, in
    order, what the manager does to the outside: the requests it
    sends, the [background-sync] events it dispatches and the timers it
    sets through [scheduleSync]. *)

Definition loc : Type := nat.

Inductive Signal : Type := SYNC_SUCCESS | SYNC_FAILED.

#[export] Instance Signal_eq_dec : EqDecision Signal.
Proof. solve_decision. Defined.

Inductive Effect : Type :=
| Fetch (l : loc) (operation : SyncOperation)
| Notify (signal : Signal) (l : loc) (operation : SyncOperation)
| Schedule (delay : Z).

Record World : Type := mkWorld {
  syncInProgress : bool;
  syncQueue : list loc;
  heap : gmap loc SyncOperation;
  storage : DB;
  onLine : bool;
  log : list Effect
}.

Definition set_syncInProgress (b : bool) (w : World) : World :=
  mkWorld b (syncQueue w) (heap w) (storage w) (onLine w) (log w).
Definition set_syncQueue (q : list loc) (w : World) : World :=
  mkWorld (syncInProgress w) q (heap w) (storage w) (onLine w) (log w).
Definition set_heap (h : gmap loc SyncOperation) (w : World) : World :=
  mkWorld (syncInProgress w) (syncQueue w) h (storage w) (onLine w) (log w).
Definition set_storage (db : DB) (w : World) : World :=
  mkWorld (syncInProgress w) (syncQueue w) (heap w) db (onLine w) (log w).
Definition set_onLine (b : bool) (w : World) : World :=
  mkWorld (syncInProgress w) (syncQueue w) (heap w) (storage w) b (log w).
Definition emit (e : Effect) (w : World) : World :=
  mkWorld (syncInProgress w) (syncQueue w) (heap w) (storage w) (onLine w)
          (log w ++ [e]).

(** Run a storage method whose rejection is caught and logged. *)
Definition run_storage {A} (m : M A) (w : World) : World :=
  set_storage (m (storage w)).2 w.

(** [scheduleSync(delay)]: sets a timer. *)
Definition scheduleSync (delay : Z) (w : World) : World := emit (Schedule delay) w.

(** [notifyApp(type, { operation, ... })] *)
Definition notifyApp (signal : Signal) (l : loc) (operation : SyncOperation)
    (w : World) : World :=
  emit (Notify signal l operation) w.

(** [failedRequests.find(r => r.url === operation.endpoint &&
    r.timestamp === operation.timestamp)] *)
Definition find_request (operation : SyncOperation) (rs : list FailedRequest)
  : option FailedRequest :=
  List.find (λ r, String.eqb (OfflineStorage.url r) (endpoint operation)
                  && (OfflineStorage.timestamp r =? timestamp operation)) rs.

(** [request && request.id]: an id that is [undefined] or [0] is falsy. *)
Definition truthy_id (r : option FailedRequest) : option Z :=
  match r with
  | Some r => match fr_id r with
              | Some n => if n =? 0 then None else Some n
              | None => None
              end
  | None => None
  end.

Definition removePendingOperation (operation : SyncOperation) : M unit :=
  try_catch
    (let! failedRequests := getFailedRequests in
     match truthy_id (find_request operation failedRequests) with
     | Some n => removeFailedRequest n
     | None => ret tt
     end)
    (λ _, ret tt).

Definition updatePendingOperation (operation : SyncOperation) : M unit :=
  try_catch
    (let! failedRequests := getFailedRequests in
     match truthy_id (find_request operation failedRequests) with
     | Some n => updateFailedRequest n (retryCount operation)
     | None => ret tt
     end)
    (λ _, ret tt).

(** [this.syncQueue.filter(op => op.id !== operation.id)] *)
Definition without_id (i : string) (h : gmap loc SyncOperation) (q : list loc)
  : list loc :=
  filter (λ l, id <$> h !! l ≠ Some i) q.

(** [operation.retryCount++] on the object at [l]. *)
Definition incr_retryCount (o : SyncOperation) : SyncOperation :=
  mkSyncOperation (id o) (type o) (action o) (data o) (endpoint o) (method o)
                  (priority o) (retryCount o + 1) (maxRetries o) (timestamp o)
                  (userId o).

(** [this.retryDelays[Math.min(retryCount - 1, this.retryDelays.length - 1)]],
    passed to [scheduleSync(delay = 0)]: an index below zero reads
    [undefined], which the default parameter turns into 0. *)
Definition retryDelay (retryCount : Z) : Z :=
  let i := Z.min (retryCount - 1) (Z.of_nat (length retryDelays) - 1) in
  if i <? 0 then 0 else default 0 (retryDelays !! Z.to_nat i).

(** The body of the [for] loop of [performSync], split at the point
    where it waits for the network: [issue] is everything up to the
    call of [fetch], [settle] everything after the reply. *)
Definition issue (l : loc) (w : World) : World :=
  match heap w !! l with
  | Some operation => emit (Fetch l operation) w
  | None => w
  end.

(** A result holds the operation object itself, not a copy of it: read
    when the pass returns, it shows the object as its attempt left it. *)
Definition seen_as (operation : SyncOperation) (result : SyncResult) : SyncResult :=
  mkSyncResult (success result) operation (error result) (response result).

Definition settle (r : Reply) (l : loc) (w : World) : list SyncResult * World :=
  match heap w !! l with
  | None => ([], w)
  | Some operation =>
      match executeOperation operation r (storage w) with
      | (Throw message, db) => ([failure operation message], set_storage db w)
      | (Ok result, db) =>
          let w := set_storage db w in
          if success result then
            let w := set_syncQueue (without_id (id operation) (heap w) (syncQueue w)) w in
            let w := run_storage (removePendingOperation operation) w in
            ([result], notifyApp SYNC_SUCCESS l operation w)
          else
            let operation := incr_retryCount operation in
            let w := set_heap (<[l := operation]> (heap w)) w in
            if maxRetries operation <=? retryCount operation then
              let w := set_syncQueue (without_id (id operation) (heap w) (syncQueue w)) w in
              let w := run_storage (removePendingOperation operation) w in
              ([seen_as operation result], notifyApp SYNC_FAILED l operation w)
            else
              let w := run_storage (updatePendingOperation operation) w in
              ([seen_as operation result],
               scheduleSync (retryDelay (retryCount operation)) w)
      end
  end.

(** *** A drain pass that runs to completion

    [net k] is the environment of the [k]-th attempt of the pass. *)

Definition priorityOrder (p : Priority) : Z :=
  match p with High => 3 | Medium => 2 | Low => 1 end.

(** The comparator handed to [Array.prototype.sort]. *)
Definition compareOps (a b : SyncOperation) : Z :=
  let priorityDiff := priorityOrder (priority b) - priorityOrder (priority a) in
  if negb (priorityDiff =? 0) then priorityDiff
  else timestamp a - timestamp b.

Section Sort.
Context {A : Type} (cmp : A → A → Z).

Fixpoint insert_sorted (x : A) (l : list A) : list A :=
  match l with
  | [] => [x]
  | y :: l' => if cmp x y <=? 0 then x :: l else y :: insert_sorted x l'
  end.

(** [Array.prototype.sort(cmp)]: a stable sort. *)
Definition sort (l : list A) : list A := foldr insert_sorted [] l.

End Sort.

Definition compareLocs (h : gmap loc SyncOperation) (a b : loc) : Z :=
  match h !! a, h !! b with
  | Some a, Some b => compareOps a b
  | _, _ => 0
  end.

Definition sortedQueue (w : World) : list loc :=
  sort (compareLocs (heap w)) (syncQueue w).

Fixpoint drain (net : nat → Reply) (k : nat) (sorted : list loc) (w : World)
  : list SyncResult * World :=
  match sorted with
  | [] => ([], w)
  | l :: rest =>
      let '(res, w1) := settle (net k) l (issue l w) in
      let '(results, w2) := drain net (S k) rest w1 in
      ((res ++ results)%list, w2)
  end.

Definition performSync (net : nat → Reply) (w : World) : list SyncResult * World :=
  if syncInProgress w || (length (syncQueue w) =? 0)%nat then ([], w)
  else
    let w := set_syncInProgress true w in
    let '(results, w) := drain net 0 (sortedQueue w) w in
    (results, set_syncInProgress false w).

(** [forcSync()] *)
Definition forcSync (net : nat → Reply) (w : World)
  : Res (list SyncResult) * World :=
  if onLine w then let '(results, w) := performSync net w in (Ok results, w)
  else (Throw "Cannot sync while offline", w).

(** Passes run one after the other. *)
Fixpoint passes (nets : list (nat → Reply)) (w : World) : World :=
  match nets with
  | [] => w
  | net :: nets' => passes nets' (performSync net w).2
  end.

(** *** Enqueueing *)

Record NewOperation : Type := mkNewOperation {
  new_type : OpType;
  new_action : Action;
  new_data : Json;
  new_endpoint : string;
  new_method : string;
  new_priority : Priority;
  new_maxRetries : Z;
  new_userId : option string
}.

Section Enqueue.
(** [JSON.stringify] *)
Context (stringify : Json → string).

Definition storePendingOperation (operation : SyncOperation) : M unit :=
  try_catch
    (let failedRequest :=
       mkFailedRequest None (endpoint operation) (method operation)
         [("Content-Type", "application/json")]
         (if Js.truthy (data operation) then Some (stringify (data operation)) else None)
         (timestamp operation) (retryCount operation) (maxRetries operation) in
     addFailedRequest failedRequest)
    (λ _, ret tt).

Definition addOperation (now : Z) (rand : string) (operation : NewOperation)
    (w : World) : World :=
  let syncOperation :=
    mkSyncOperation ("sync-" +:+ toString now +:+ "-" +:+ rand)
      (new_type operation) (new_action operation) (new_data operation)
      (new_endpoint operation) (new_method operation) (new_priority operation)
      0 (new_maxRetries operation) now (new_userId operation) in
  let l := fresh (dom (heap w)) in
  let w := set_heap (<[l := syncOperation]> (heap w)) w in
  let w := set_syncQueue (syncQueue w ++ [l]) w in
  let w := run_storage (storePendingOperation syncOperation) w in
  if onLine w && negb (syncInProgress w) then scheduleSync 0 w else w.

Definition queueOrderCreation (now : Z) (rand : string) (orderData : Json)
  : World → World :=
  addOperation now rand
    (mkNewOperation Order Create orderData "/api/orders/create" "POST" High 5 None).

Definition queuePayment (now : Z) (rand : string) (paymentData : Json)
  : World → World :=
  addOperation now rand
    (mkNewOperation Payment Create paymentData "/api/payments" "POST" High 5 None).

Definition queueCartUpdate (now : Z) (rand : string) (cartData : Json)
  : World → World :=
  addOperation now rand
    (mkNewOperation Cart Update cartData "/api/orders/cart" "PUT" Medium 3 None).

Definition queueTicketUpdate (now : Z) (rand : string) (ticketId : string)
    (updateData : Json) : World → World :=
  addOperation now rand
    (mkNewOperation Ticket Update updateData ("/api/tickets/" +:+ ticketId)
       "PATCH" Medium 3 None).

Definition queueUserPreferencesUpdate (now : Z) (rand : string) (preferences : Json)
  : World → World :=
  addOperation now rand
    (mkNewOperation UserPreference Update preferences "/api/users/preferences"
       "PATCH" Low 2 None).

End Enqueue.

(** *** Drain passes that overlap

    A pass gives up control each time it waits for the network.  The
    machine keeps, for every call of [performSync] that has not
    returned yet, the operations it still has to go through; the first
    of them is the one whose request is in flight. *)

Record Machine : Type := mkMachine {
  world : World;
  running : list (list loc)
}.

Inductive Input : Type :=
| CallForcSync
| TimerFires
| GoesOnline
| GoesOffline
| Replies (d : nat) (r : Reply).

(** [performSync()] up to its first [await]. *)
Definition performSync_enter (m : Machine) : Machine :=
  let w := world m in
  if syncInProgress w || (length (syncQueue w) =? 0)%nat then m
  else
    let w := set_syncInProgress true w in
    match sortedQueue w with
    | [] => mkMachine (set_syncInProgress false w) (running m)
    | l :: rest => mkMachine (issue l w) (running m ++ [l :: rest])
    end.

(** The pass [d] receives the reply it was waiting for, handles it and
    moves on to the next operation, or returns. *)
Definition performSync_resume (d : nat) (r : Reply) (m : Machine) : Machine :=
  match running m !! d with
  | Some (l :: rest) =>
      let w := (settle r l (world m)).2 in
      match rest with
      | [] => mkMachine (set_syncInProgress false w) (base.delete d (running m))
      | l' :: _ => mkMachine (issue l' w) (<[d := rest]> (running m))
      end
  | _ => m
  end.

Definition step (m : Machine) (i : Input) : Machine :=
  match i with
  | CallForcSync =>
      if onLine (world m) then performSync_enter m else m
  | TimerFires =>
      if onLine (world m) && negb (syncInProgress (world m))
      then performSync_enter m else m
  | GoesOnline =>
      (* handleOnline *)
      mkMachine (scheduleSync 1000 (set_onLine true (world m))) (running m)
  | GoesOffline =>
      (* handleOffline *)
      mkMachine (set_syncInProgress false (set_onLine false (world m))) (running m)
  | Replies d r => performSync_resume d r m
  end.

Definition run (m : Machine) (inputs : list Input) : Machine :=
  foldl step m inputs.

(** The replies to [n] requests in a row of the pass [0], the [k]-th
    reply of [net] first. *)
Definition replies (net : nat → Reply) (k n : nat) : list Input :=
  (λ i, Replies 0 (net i)) <$> seq k n.

(** The requests sent so far, by operation object. *)
Definition fetches (w : World) : list loc :=
  omap (λ e, match e with Fetch l _ => Some l | _ => None end) (log w).

(** *** Reading the log *)




(** The queue holds each object once, every queued operation has
    retries left, and no two queued operations share an [id]. *)
Definition queue_ok (q : list loc) (h : gmap loc SyncOperation) : Prop :=
  NoDup q ∧
  (∀ l, l ∈ q → ∃ o, h !! l = Some o ∧ retryCount o < maxRetries o) ∧
  (∀ l1 l2 o1 o2, l1 ∈ q → l2 ∈ q → h !! l1 = Some o1 → h !! l2 = Some o2 →
                  id o1 = id o2 → l1 = l2).





(** *** The order of a drain pass, in the words of the specification

    Priority descending (high before medium before low), and within a
    priority the enqueue timestamp ascending. *)

Definition higher_priority (a b : SyncOperation) : Prop :=
  match priority a, priority b with
  | High, (Medium | Low) | Medium, Low => True
  | _, _ => False
  end.

Definition drain_order (a b : SyncOperation) : Prop :=
  higher_priority a b ∨ (priority a = priority b ∧ timestamp a ≤ timestamp b).

(** The same on the objects two queue entries refer to. *)
Definition drained_before (h : gmap loc SyncOperation) (a b : loc) : Prop :=
  ∃ oa ob, h !! a = Some oa ∧ h !! b = Some ob ∧ drain_order oa ob.

(** *** Retry classification *)

(** The failures the retry policy calls retryable: a network error, a
    5xx answer, 408 and 429. *)
Definition retryable (o : FetchOutcome) : bool :=
  match o with
  | NetworkError _ => true
  | Http status _ _ =>
      ((500 <=? status) && (status <=? 599)) || (status =? 408) || (status =? 429)
  end.

(** A client error: a 4xx answer other than 408 and 429. *)
Definition client_error (o : FetchOutcome) : bool :=
  match o with
  | NetworkError _ => false
  | Http status _ _ =>
      (400 <=? status) && (status <=? 499)
      && negb (status =? 408) && negb (status =? 429)
  end.


(** [SyncUtils.shouldRetry] *)
Definition shouldRetry (operation : SyncOperation) (error : string) : bool :=
  if Js.includes "HTTP 4" error && negb (Js.includes "408" error)
     && negb (Js.includes "429" error)
  then false
  else if maxRetries operation <=? retryCount operation then false
  else true.

(** *** Reloading the queue from storage *)

Definition inferOperationType (url : string) : OpType :=
  if Js.includes "/orders" url then Order
  else if Js.includes "/payments" url then Payment
  else if Js.includes "/tickets" url then Ticket
  else if Js.includes "/cart" url then Cart
  else if Js.includes "/users" url || Js.includes "/profile" url then UserPreference
  else Order.

Definition inferPriority (url : string) : Priority :=
  if Js.includes "/payments" url || Js.includes "/orders/create" url then High
  else if Js.includes "/orders" url || Js.includes "/tickets" url then Medium
  else Low.

Section Load.
(** [String.prototype.toUpperCase], and [JSON.parse], which throws
    ([None]) on text that is not JSON. *)
Context (toUpperCase : string → string) (parse : string → option Json).

Definition inferAction (method : string) : Action :=
  let m := toUpperCase method in
  if String.eqb m "POST" then Create
  else if String.eqb m "PUT" then Update
  else if String.eqb m "PATCH" then Update
  else if String.eqb m "DELETE" then Delete
  else Create.

(** [request.body ? JSON.parse(request.body) : null] *)
Definition parse_body (body : option string) : option Json :=
  match body with
  | Some b => if String.eqb b "" then Some JNull else parse b
  | None => Some JNull
  end.

Definition convertFailedRequestToOperation (now : Z) (request : FailedRequest)
  : option SyncOperation :=
  data ← parse_body (body request);
  Some (mkSyncOperation
          (match fr_id request with
           | Some n => toString n
           | None => toString now
           end)
          (inferOperationType (url request))
          (inferAction (OfflineStorage.method request))
          data
          (url request)
          (OfflineStorage.method request)
          (inferPriority (url request))
          (OfflineStorage.retryCount request)
          (OfflineStorage.maxRetries request)
          (OfflineStorage.timestamp request)
          None).

(** A new object, appended to the queue. *)
Definition enqueue_object (w : World) (o : SyncOperation) : World :=
  let l := fresh (dom (heap w)) in
  set_syncQueue (syncQueue w ++ [l]) (set_heap (<[l := o]> (heap w)) w).

(** [this.syncQueue = failedRequests.map(convert)]; when a body does not
    parse the assignment is not reached and the queue stays. *)
Definition loadPendingOperations (now : Z) (w : World) : World :=
  match mapM (convertFailedRequestToOperation now)
             (store_getAll (failed_requests (storage w))) with
  | Some operations => foldl enqueue_object (set_syncQueue [] w) operations
  | None => w
  end.

End Load.

(** *** Inspecting and clearing the queue *)

(** [this.syncQueue.find(op => op.id === operationId)] *)
Definition find_operation (operationId : string) (w : World) : option SyncOperation :=
  List.find (λ o, String.eqb (id o) operationId)
            (omap (λ l, heap w !! l) (syncQueue w)).

Record RetryInfo : Type := mkRetryInfo {
  info_retryCount : Z;
  info_maxRetries : Z;
  nextRetryIn : option Z
}.

Definition getRetryInfo (operationId : string) (w : World) : option RetryInfo :=
  match find_operation operationId w with
  | None => None
  | Some operation =>
      Some (mkRetryInfo (retryCount operation) (maxRetries operation)
              (if retryCount operation <? maxRetries operation then
                 let i := Z.min (retryCount operation)
                                (Z.of_nat (length retryDelays) - 1) in
                 if i <? 0 then None else retryDelays !! Z.to_nat i
               else None))
  end.

(** [{ ...target, ...source }] *)
Definition assign (target source : list (string * Json)) : list (string * Json) :=
  foldl (λ acc kv, Js.set_field kv.1 kv.2 acc) target source.

(** [SyncUtils.createOptimisticResponse] *)
Definition createOptimisticResponse (now : Z) (operation : SyncOperation) : Json :=
  match type operation with
  | Order | Payment =>
      JObj (Js.set_field "isOptimistic" (JBool true)
              (Js.set_field "status" (JStr "pending")
                 (assign [("id", JStr ("temp-" +:+ toString now))]
                         (Js.own_fields (data operation)))))
  | _ =>
      JObj (Js.set_field "isOptimistic" (JBool true)
              (assign [] (Js.own_fields (data operation))))
  end.

End BackgroundSync.

(** ** The Cache Strategy Engine (public/sw.js) *)

Module ServiceWorker.
Import Async.

Record Request : Type := mkRequest {
  url : string;
  (** [new URL(request.url).pathname] *)
  pathname : string;
  method : string;
  req_headers : list (string * string)
}.

Inductive Body : Type :=
| Text (s : string)
(** [JSON.stringify(j)] *)
| JsonText (j : Json).

Record Response : Type := mkResponse {
  status : Z;
  headers : list (string * string);
  body : Body
}.

(** [response.ok] *)
Definition ok (r : Response) : bool := (200 <=? status r) && (status r <=? 299).

(** What [fetch(request)] does: it resolves with whatever the server
    answered, or rejects when the network fails. *)
Inductive NetResult : Type :=
| Answers (r : Response)
| Fails (e : string).

Definition STATIC_CACHE : string := "tiko-static-v1.0.0".
Definition DYNAMIC_CACHE : string := "tiko-dynamic-v1.0.0".

Definition CACHE_API_ROUTES : list string :=
  ["/api/events"; "/api/categories"; "/api/venues"; "/api/auth/me"].

(** *** What the browser does

    Cache Storage, IndexedDB and the body of a request belong to the
    browser.  Which responses a cache holds, how a request is matched
    against them, when a write asked for by [put] takes effect, which
    version of the database exists, and when a call rejects, is not
    for the worker to decide.  The handlers are written over two
    interfaces that say how each call they make ends, [C] being the
    state of the caches and [D] that of the database. *)

Record CacheStorage (C : Type) : Type := mkCacheStorage {
  (** [await caches.open(name)] *)
  storage_open : string → M C unit;
  (** [await cache.match(request)], [cache] being the cache opened
      under [name] *)
  cache_match : string → Request → M C (option Response);
  (** [await caches.match(request)] *)
  storage_match : Request → M C (option Response);
  (** [cache.put(request, response)] on the cache opened under [name].
      The promise is not awaited: whether and when the response is
      stored, and whether the call rejects, does not reach the
      handler. *)
  cache_put : string → Request → Response → C → C
}.
#[global] Arguments storage_open {C} _ _ _.
#[global] Arguments cache_match {C} _ _ _ _.
#[global] Arguments storage_match {C} _ _ _.
#[global] Arguments cache_put {C} _ _ _ _ _.

(** A request that could not be sent, as [storeFailedRequest] hands it
    to the object store [failed-requests]; its [id] is generated by the
    store. *)
Record StoredRequest : Type := mkStoredRequest {
  sr_url : string;
  sr_method : string;
  sr_headers : list (string * string);
  sr_body : string;
  sr_timestamp : Z
}.

Record RequestStore (D : Type) : Type := mkRequestStore {
  (** [await openDB()]: [indexedDB.open('TiKoOfflineDB', 1)], with the
      object stores created when the database is new.  (The page opens
      the same database at version 2.) *)
  openDB : M D unit;
  (** [db.transaction(['failed-requests'], 'readwrite')
         .objectStore('failed-requests')] *)
  open_store : M D unit;
  (** [await request.text()], on a request that [fetch] has been
      called with before *)
  body_text : Request → Res string;
  (** [await store.add(requestData)].  The call returns a request
      object, not a promise, so that only an exception it throws at
      once reaches the handler. *)
  store_add : StoredRequest → M D unit
}.
#[global] Arguments openDB {D} _ _.
#[global] Arguments open_store {D} _ _.
#[global] Arguments body_text {D} _ _.
#[global] Arguments store_add {D} _ _ _.

Record State (C D : Type) : Type := mkState {
  caches : C;
  database : D
}.
#[global] Arguments mkState {C D} _ _.
#[global] Arguments caches {C D} _.
#[global] Arguments database {C D} _.

Section Handlers.
Context {C D : Type} (cs : CacheStorage C) (rs : RequestStore D).
(** The network, the origin the worker is registered for, [Date.now()]. *)
Context (net : Request → NetResult) (origin : string) (now : Z).

(** A call on Cache Storage, a call on the database. *)
Definition on_caches {A} (m : M C A) : M (State C D) A :=
  λ st, let '(r, c) := m (caches st) in (r, mkState c (database st)).

Definition on_database {A} (m : M D A) : M (State C D) A :=
  λ st, let '(r, d) := m (database st) in (r, mkState (caches st) d).

Definition put_unawaited (name : string) (request : Request) (response : Response)
  : M (State C D) unit :=
  modify (λ st, mkState (cache_put cs name request response (caches st)) (database st)).

Definition fetch (request : Request) : M (State C D) Response :=
  match net request with
  | Answers r => ret r
  | Fails e => throw e
  end.

Definition offline_api_response : Response :=
  mkResponse 503 [("Content-Type", "application/json")]
    (JsonText (JObj [("error", JStr "Offline");
                     ("message", JStr "This feature is not available offline");
                     ("offline", JBool true)])).

Definition offline_asset_response : Response :=
  mkResponse 503 [("Content-Type", "text/plain;charset=UTF-8")]
    (Text "Asset not available offline").

Definition offline_page_response : Response :=
  mkResponse 503 [("Content-Type", "text/plain;charset=UTF-8")] (Text "Offline").

(** Network first *)
Definition handleApiRequest (request : Request) : M (State C D) Response :=
  let cacheName := DYNAMIC_CACHE in
  try_catch
    (let! networkResponse := fetch request in
     (if ok networkResponse then
        on_caches (storage_open cs cacheName) >>>
        if existsb (λ route, Js.includes route (url request)) CACHE_API_ROUTES
        then put_unawaited cacheName request networkResponse
        else ret tt
      else ret tt) >>>
     ret networkResponse)
    (λ _,
      let! cachedResponse := on_caches (storage_match cs request) in
      match cachedResponse with
      | Some r => ret r
      | None => ret offline_api_response
      end).

(** Cache first *)
Definition handleStaticRequest (request : Request) : M (State C D) Response :=
  on_caches (storage_open cs STATIC_CACHE) >>>
  let! cachedResponse := on_caches (cache_match cs STATIC_CACHE request) in
  match cachedResponse with
  | Some r => ret r
  | None =>
      try_catch
        (let! networkResponse := fetch request in
         (if ok networkResponse
          then put_unawaited STATIC_CACHE request networkResponse
          else ret tt) >>>
         ret networkResponse)
        (λ _, ret offline_asset_response)
  end.

(** [caches.match('/offline')]: the URL is resolved against the
    worker's origin and asked for with GET. *)
Definition offline_page_request : Request :=
  mkRequest (origin +:+ "/offline") "/offline" "GET" [].

(** Network first, cache fallback, then the offline page *)
Definition handleNavigationRequest (request : Request) : M (State C D) Response :=
  try_catch
    (let! networkResponse := fetch request in
     (if ok networkResponse then
        on_caches (storage_open cs DYNAMIC_CACHE) >>>
        put_unawaited DYNAMIC_CACHE request networkResponse
      else ret tt) >>>
     ret networkResponse)
    (λ _,
      let! cachedResponse := on_caches (storage_match cs request) in
      match cachedResponse with
      | Some r => ret r
      | None =>
          let! offlineResponse := on_caches (storage_match cs offline_page_request) in
          ret (default offline_page_response offlineResponse)
      end).

Definition storeFailedRequest (request : Request) : M (State C D) unit :=
  on_database (openDB rs) >>>
  on_database (open_store rs) >>>
  let! body := (λ st, (body_text rs request, st)) in
  on_database
    (store_add rs
       (mkStoredRequest (url request) (method request) (req_headers request) body now)).

Definition queued_response : Response :=
  mkResponse 202 [("Content-Type", "application/json")]
    (JsonText (JObj [("success", JBool true);
                     ("message", JStr "Request queued for when you're back online");
                     ("queued", JBool true)])).

Definition handleMutationRequest (request : Request) : M (State C D) Response :=
  try_catch
    (fetch request)
    (λ _, storeFailedRequest request >>> ret queued_response).

(** The [fetch] listener: the handler passed to [event.respondWith], or
    [None] when the worker leaves the request to the browser. *)
Definition onFetch (request : Request) : option (M (State C D) Response) :=
  if String.eqb (method request) "GET" then
    if Js.startsWith "/api/" (pathname request) then
      Some (handleApiRequest request)
    else if Js.startsWith "/_next/static/" (pathname request)
            || Js.includes "." (pathname request) then
      Some (handleStaticRequest request)
    else
      Some (handleNavigationRequest request)
  else
    if Js.startsWith "/api/" (pathname request)
    then Some (handleMutationRequest request)
    else None.

End Handlers.

(** Cache Storage never rejects a call the worker waits for. *)
Definition never_rejects {C : Type} (cs : CacheStorage C) : Prop :=
  (∀ name c, (storage_open cs name c).1 = Ok tt) ∧
  (∀ name request c, ∃ found, (cache_match cs name request c).1 = Ok found) ∧
  (∀ request c, ∃ found, (storage_match cs request c).1 = Ok found).

(** *** Push messages *)

(** The options [showNotification] is called with. *)
Record NotificationOptions : Type := mkNotificationOptions {
  opt_body : option Json;
  opt_icon : Json;
  opt_badge : string;
  opt_image : option Json;
  opt_tag : option Json;
  opt_data : option Json;
  opt_actions : Json;
  opt_requireInteraction : Json;
  opt_silent : Json
}.

(** [a || b] *)
Definition or_else (a : option Json) (b : Json) : Json :=
  match a with
  | Some j => if Js.truthy j then j else b
  | None => b
  end.

(** The [push] listener: the notification it shows, if any.  [data] is
    [event.data.json()], absent when the message has no payload; reading
    the fields of [null] makes the listener throw. *)
Definition onPush (data : option Json) : option (option Json * NotificationOptions) :=
  match data with
  | None => None
  | Some JNull => None
  | Some data =>
      Some (Js.prop "title" data,
            mkNotificationOptions
              (Js.prop "body" data)
              (or_else (Js.prop "icon" data) (JStr "/icons/icon-192x192.png"))
              "/icons/badge-72x72.png"
              (Js.prop "image" data)
              (Js.prop "tag" data)
              (Js.prop "data" data)
              (or_else (Js.prop "actions" data) (JArr []))
              (or_else (Js.prop "requireInteraction" data) (JBool false))
              (or_else (Js.prop "silent" data) (JBool false)))
  end.

End ServiceWorker.

(** ** The Notification Scheduler (src/lib/notification.ts) *)

Module Notifications.
Import Async.

Record ScheduledNotification : Type := mkScheduledNotification {
  id : string;
  eventTitle : string;
  eventDate : string;
  eventId : string;
  (** the absolute due time; [None] is [NaN] *)
  reminderTime : option Z;
  type : string
}.

(** The object store [scheduled-notifications] of [TiKoNotificationsDB],
    and the notifications displayed so far. *)
Record State : Type := mkState {
  scheduled : OfflineStorage.ObjStore ScheduledNotification;
  shown : list (option Json * ServiceWorker.NotificationOptions)
}.

Definition storeScheduledNotification (notification : ScheduledNotification)
  : M State unit :=
  try_catch
    (modify (λ st,
       mkState (OfflineStorage.store_put (OfflineStorage.KeyStr (id notification))
                  notification (scheduled st))
               (shown st)))
    (λ _, ret tt).

Section Schedule.
(** [new Date(s).getTime()], [None] for an invalid date. *)
Context (getTime : string → option Z).

Definition scheduleEventReminder (now : Z) (eventTitle eventDate eventId : string)
    (reminderTime : Z) : M State unit :=
  let reminderDateTime := (λ eventDateTime, eventDateTime - reminderTime) <$> getTime eventDate in
  if match reminderDateTime with
     | Some t => t <=? now
     | None => false
     end
  then ret tt
  else
    storeScheduledNotification
      (mkScheduledNotification
         ("reminder-" +:+ eventId +:+ "-" +:+ OfflineStorage.toString reminderTime)
         eventTitle eventDate eventId reminderDateTime "event-reminder").

End Schedule.

(** Everything that runs while the application or its worker is
    active: the worker's listeners, and on the page the return to the
    foreground ([handleVisibilityChange]) and the two maintenance
    intervals ([setupMaintenanceTasks]). *)
Inductive Activity : Type :=
| WorkerSync (tag : string)
| WorkerPush (data : option Json)
| WorkerMessage (type : string)
| WorkerFetch
| WorkerNotificationClick (action : string)
| PageForeground
| PageMaintenance
| PagePeriodicSync.

(** What an activity does to the stored reminders and to the
    notifications on display.  Only the [push] listener shows a
    notification, built from the pushed payload; no listener, interval
    or handler opens [scheduled-notifications]. *)
Definition on_activity (st : State) (a : Activity) : State :=
  match a with
  | WorkerPush data =>
      match ServiceWorker.onPush data with
      | Some n => mkState (scheduled st) (shown st ++ [n])
      | None => st
      end
  | WorkerSync _ | WorkerMessage _ | WorkerFetch | WorkerNotificationClick _
  | PageForeground | PageMaintenance | PagePeriodicSync => st
  end.

Definition activities (st : State) (l : list Activity) : State :=
  foldl on_activity st l.

(** The notification an activity puts on display, if any. *)
Definition pushed (a : Activity) : option (option Json * ServiceWorker.NotificationOptions) :=
  match a with
  | WorkerPush data => ServiceWorker.onPush data
  | _ => None
  end.

(** *** [NotificationUtils.formatTimeUntil] *)

Definition plural (n : Z) : string := if n =? 1 then "" else "s".

Section FormatTime.
Context (getTime : string → option Z).

(** [Math.floor(a / b)] is [a / b] on integers; [%] is the remainder
    that takes the sign of the dividend.  An invalid date makes every
    comparison false. *)
Definition formatTimeUntil (now : Z) (eventDate : string) : string :=
  match getTime eventDate with
  | None => "now"
  | Some event =>
      let diff := event - now in
      let days := diff / (1000 * 60 * 60 * 24) in
      let hours := Z.rem diff (1000 * 60 * 60 * 24) / (1000 * 60 * 60) in
      let minutes := Z.rem diff (1000 * 60 * 60) / (1000 * 60) in
      if 0 <? days then "in " +:+ OfflineStorage.toString days +:+ " day" +:+ plural days
      else if 0 <? hours then
        "in " +:+ OfflineStorage.toString hours +:+ " hour" +:+ plural hours
      else if 0 <? minutes then
        "in " +:+ OfflineStorage.toString minutes +:+ " minute" +:+ plural minutes
      else "now"
  end.

End FormatTime.

End Notifications.

(** ** The reminders the application asks for (src/components/PWAProvider.tsx) *)

Module PWAProvider.
Import Async.

Definition reminderTimes : list Z :=
  [24 * 60 * 60 * 1000; 2 * 60 * 60 * 1000; 30 * 60 * 1000].

Section Reminders.
Context (getTime : string → option Z).

(** [clock i] is what [Date.now()] yields in the [i]-th turn of the
    loop. *)
Definition scheduleEventReminder (clock : nat → Z) (eventId eventTitle eventDate : string)
  : M Notifications.State unit :=
  for_each (imap (λ i reminderTime, (clock i, reminderTime)) reminderTimes)
    (λ turn,
       Notifications.scheduleEventReminder getTime turn.1 eventTitle eventDate eventId
                                           turn.2).

End Reminders.

End PWAProvider.

(** ** Sample data *)

Module Samples.
Import Async OfflineStorage BackgroundSync.

Definition quote (s : string) : string :=
  String (Ascii.ascii_of_nat 34) s +:+ String (Ascii.ascii_of_nat 34) "".

Definition join (l : list string) : string := String.concat "," l.

(** [JSON.stringify] on values whose strings need no escaping. *)
Fixpoint stringify (j : Json) : string :=
  match j with
  | JNull => "null"
  | JBool b => if b then "true" else "false"
  | JNum n => pretty n
  | JStr s => quote s
  | JArr l => "[" +:+ join (map stringify l) +:+ "]"
  | JObj fs =>
      "{" +:+ join (map (λ kv, let '(k, v) := kv in quote k +:+ ":" +:+ stringify v) fs)
          +:+ "}"
  end.

Definition day : Z := 24 * 60 * 60 * 1000.

Definition concert : StoredEvent :=
  mkStoredEvent "evt-1" "Concert" "Live music" "2025-03-01" "2025-03-02"
    JNull JNull [] None "published" 0 synced.

(** The event is cached at time 0, then marked for synchronisation. *)
Definition db_pending_event : DB :=
  ((cacheEvent 0 concert >>> markForSync "evt-1") empty_db).2.

Definition idle : World := mkWorld false [] ∅ empty_db true [].

Definition order_data : Json := JObj [("eventId", JStr "evt-1"); ("quantity", JNum 2)].

(** One order creation queued at time 100. *)
Definition one_order : World := queueOrderCreation stringify 100 "k3x9" order_data idle.

Definition not_found : Reply :=
  mkReply (Http 404 "Not Found" None) 200 "a" "Unexpected end of JSON input".
Definition unavailable : Reply :=
  mkReply (Http 503 "Service Unavailable" None) 200 "a" "Unexpected end of JSON input".

(** The server accepts the order. *)
Definition created : Reply :=
  mkReply (Http 201 "Created"
             (Some (JObj [("order", JObj [("id", JStr "ord-1")]);
                          ("tickets", JArr [JObj [("id", JStr "tic-1")]])])))
          300 "a" "Unexpected end of JSON input".


(** A ticket update, a preference update and a payment, queued in that
    order at times 100, 110 and 120. *)
Definition three_queued : World :=
  queuePayment stringify 120 "c" (JObj [("amount", JNum 2500)])
    (queueUserPreferencesUpdate stringify 110 "b" (JObj [("theme", JStr "dark")])
       (queueTicketUpdate stringify 100 "a" "tic-9" (JObj [("seat", JStr "A1")]) idle)).

(** A second event, cached half a day before the sweep. *)
Definition festival : StoredEvent :=
  mkStoredEvent "evt-2" "Festival" "Three days" "2025-06-01" "2025-06-03"
    JNull JNull [] None "published" (8 * day - day / 2) synced.

Definition db_two_events : DB :=
  (cacheEvent (8 * day - day / 2) festival db_pending_event).2.

(** The clock of the reminder scenario starts at 0; the event begins
    twenty minutes later. *)
Definition minute : Z := 60 * 1000.

Definition getTime (s : string) : option Z :=
  if String.eqb s "2025-03-01T20:00:00" then Some (20 * minute) else None.

Definition no_reminders : Notifications.State := Notifications.mkState [] [].

(** A reminder ten minutes before the event, scheduled at time 0. *)
Definition reminder_scheduled : Notifications.State :=
  (Notifications.scheduleEventReminder getTime 0 "Concert" "2025-03-01T20:00:00"
     "evt-1" (10 * minute) no_reminders).2.

Definition api_request : ServiceWorker.Request :=
  ServiceWorker.mkRequest "https://tiko.app/api/events" "/api/events" "GET" [].

Definition asset_request : ServiceWorker.Request :=
  ServiceWorker.mkRequest "https://tiko.app/logo.png" "/logo.png" "GET" [].


Definition offline (_ : ServiceWorker.Request) : ServiceWorker.NetResult :=
  ServiceWorker.Fails "Failed to fetch".

(** A browser whose caches hold nothing yet: every call the worker
    waits for resolves, nothing is found, and the writes asked for are
    still on their way. *)
Definition empty_caches
  : ServiceWorker.CacheStorage
      (list (string * ServiceWorker.Request * ServiceWorker.Response)) :=
  ServiceWorker.mkCacheStorage _
    (λ _, ret tt) (λ _ _, ret None) (λ _, ret None)
    (λ name request response c, c ++ [(name, request, response)]).

(** A browser whose Cache Storage is out of order: every call the
    worker waits for rejects. *)
Definition broken_caches : ServiceWorker.CacheStorage unit :=
  ServiceWorker.mkCacheStorage _
    (λ _, throw "UnknownError") (λ _ _, throw "UnknownError")
    (λ _, throw "UnknownError") (λ _ _ _ c, c).

(** The database once the page has created it at version 2: the
    worker's [openDB] asks for version 1 and is refused. *)
Definition upgraded_database : ServiceWorker.RequestStore unit :=
  ServiceWorker.mkRequestStore _
    (throw "VersionError") (ret tt) (λ _, Ok "") (λ _, ret tt).



Definition out_of_order : ServiceWorker.State unit unit :=
  ServiceWorker.mkState tt tt.

Definition nothing_cached
  : ServiceWorker.State
      (list (string * ServiceWorker.Request * ServiceWorker.Response)) unit :=
  ServiceWorker.mkState [] tt.

(** [JSON.parse] on the one text the queue samples store, and
    [toUpperCase] on method names, which are in upper case already. *)
Definition parse (s : string) : option Json :=
  if String.eqb s (stringify order_data) then Some order_data else None.

Definition toUpperCase (s : string) : string := s.

End Samples.

(** * Properties of the Durable Store *)

Section FilterFacts.
Context {A : Type} (P Q : A → Prop) `{!∀ x, Decision (P x), !∀ x, Decision (Q x)}.

Lemma filter_all (l : list A) : Forall P l → filter P l = l.
Proof.
  induction 1 as [|x l Hx _ IH]; [done|].
  by rewrite filter_cons_True, IH.
Qed.


Lemma filter_ext_Forall (l : list A) :
  Forall (λ x, P x ↔ Q x) l → filter P l = filter Q l.
Proof.
  induction 1 as [|x l Hx _ IH]; [done|].
  rewrite !filter_cons, IH. apply decide_ext. exact Hx.
Qed.

End FilterFacts.

Section ObjStoreFacts.
Import OfflineStorage.
Context {R : Type}.
Implicit Types (k : IDBKey) (r : R) (s : ObjStore R).

Lemma store_get_put k r s : store_get k (store_put k r s) = Some r.
Proof.
  induction s as [|[k' r'] s IH]; simpl.
  - by rewrite decide_True.
  - destruct (decide (k = k')) as [->|Hne]; simpl.
    + by rewrite decide_True.
    + destruct (key_ltb k k'); simpl.
      * by rewrite decide_True.
      * by rewrite decide_False.
Qed.

Lemma store_get_Some k r s : store_get k s = Some r → (k, r) ∈ s.
Proof.
  induction s as [|[k' r'] s IH]; simpl; [done|].
  destruct (decide (k = k')) as [->|Hne].
  - intros [= ->]. left.
  - intros H. right. by apply IH.
Qed.

Lemma store_get_None k s : store_get k s = None ↔ k ∉ s.*1.
Proof.
  induction s as [|[k' r'] s IH]; simpl.
  - split; [intros _; apply not_elem_of_nil | done].
  - destruct (decide (k = k')) as [->|Hne].
    + split; [done | intros H; exfalso; apply H; left].
    + rewrite IH, not_elem_of_cons. tauto.
Qed.

Lemma store_get_elem_of k r s : NoDup s.*1 → (k, r) ∈ s → store_get k s = Some r.
Proof.
  induction s as [|[k' r'] s IH]; simpl; intros Hnd Hin.
  - by apply elem_of_nil in Hin.
  - apply NoDup_cons in Hnd as [Hk' Hnd].
    apply elem_of_cons in Hin as [[= <- <-]|Hin].
    + by rewrite decide_True.
    + rewrite decide_False; [by apply IH|].
      intros <-. apply Hk'. apply list_elem_of_fmap. by exists (k, r).
Qed.

(** Deleting the keys of [ks] one after the other. *)
Lemma foldl_store_delete (ks : list IDBKey) s :
  foldl (λ s k, store_delete k s) s ks = filter (λ kr, kr.1 ∉ ks) s.
Proof.
  revert s. induction ks as [|k ks IH]; intros s; simpl.
  - symmetry. apply filter_all. apply Forall_forall. intros kr _. apply not_elem_of_nil.
  - rewrite IH. unfold store_delete. rewrite list_filter_filter.
    apply list_filter_iff. intros kr. rewrite not_elem_of_cons. tauto.
Qed.

Lemma NoDup_fmap_filter_fst (P : IDBKey * R → Prop) `{!∀ x, Decision (P x)} s :
  NoDup s.*1 → NoDup (filter P s).*1.
Proof.
  induction s as [|[k r] s IH]; simpl; [done|].
  intros [Hk Hnd]%NoDup_cons. rewrite filter_cons. case_decide; simpl; [|by apply IH].
  apply NoDup_cons. split; [|by apply IH].
  intros Hin. apply Hk. apply list_elem_of_fmap in Hin as (kr & -> & Hin).
  apply list_elem_of_filter in Hin as [_ Hin].
  apply list_elem_of_fmap. by exists kr.
Qed.

End ObjStoreFacts.

Section FailedRequestKeys.
Import Async OfflineStorage.

(** [failed-requests] generates numeric keys, while
    [removeFailedRequest] and [updateFailedRequest] look an entry up
    under the string [id.toString()]: on a store with numeric keys
    neither finds anything to remove or update. *)
Lemma string_key_misses_numeric_store (n : Z) (db : DB) :
  Forall (λ kr, ∃ m, kr.1 = KeyNum m) (failed_requests db) →
  removeFailedRequest n db = (Ok tt, db) ∧
  ∀ newRetryCount, updateFailedRequest n newRetryCount db = (Ok tt, db).
Proof.
  intros Hnum. split.
  - unfold removeFailedRequest, delete_failed_request, modify, set_failed_requests.
    unfold store_delete. rewrite filter_all; [by destruct db|].
    eapply Forall_impl; [exact Hnum|]. intros kr [m ->]. done.
  - intros newRetryCount.
    unfold updateFailedRequest, get_failed_request, gets, bind.
    replace (store_get (KeyStr (toString n)) (failed_requests db)) with (@None FailedRequest);
      [done|].
    symmetry. apply store_get_None. intros Hin.
    apply list_elem_of_fmap in Hin as (kr & Hk & Hin).
    rewrite Forall_forall in Hnum. destruct (Hnum kr Hin) as [m Hm]. congruence.
Qed.

End FailedRequestKeys.

Section Eviction.
Import Async OfflineStorage.

Lemma for_each_sweep_event cutoff (es : list StoredEvent) (db : DB) :
  for_each es (sweep_event cutoff) db =
    (Ok tt, set_events (λ s, foldl (λ s k, store_delete k s) s
                               ((λ e, KeyStr (id e)) <$> filter (λ e, expired cutoff e = true) es)) db).
Proof.
  revert db. induction es as [|e es IH]; intros db; simpl.
  - by destruct db.
  - destruct (expired cutoff e) eqn:He.
    + rewrite filter_cons_True by done. unfold bind, sweep_event at 1.
      unfold expired in He. rewrite He. simpl. rewrite IH. by destruct db.
    + rewrite filter_cons_False by congruence. unfold bind, sweep_event at 1.
      unfold expired in He. rewrite He. simpl. by rewrite IH.
Qed.

Lemma for_each_sweep_request_frame cutoff (rs : list FailedRequest) (db : DB) :
  same_caches db (for_each rs (sweep_request cutoff) db).2.
Proof.
  revert db. induction rs as [|r rs IH]; intros db; simpl; [done|].
  unfold bind, sweep_request at 1.
  destruct (_ || _); simpl.
  - destruct (fr_id r) as [n|]; simpl; [|done].
    apply (IH (set_failed_requests (store_delete (KeyStr (toString n))) db)).
  - apply IH.
Qed.

Lemma sweep_keeps_fresh cutoff (s : ObjStore StoredEvent) :
  events_keyed s →
  filter (λ kr, kr.1 ∉ (λ e, KeyStr (id e)) <$> filter (λ e, expired cutoff e = true) s.*2) s
  = filter (λ kr, expired cutoff kr.2 = false) s.
Proof.
  intros [Hnd Hkey]. apply filter_ext_Forall.
  rewrite Forall_forall in Hkey |- *. intros [k e] Hin. simpl.
  pose proof (Hkey _ Hin) as Hk. simpl in Hk. split.
  - intros Hnot. destruct (expired cutoff e) eqn:He; [|done].
    exfalso. apply Hnot. apply list_elem_of_fmap. exists e. split; [done|].
    apply list_elem_of_filter. split; [done|].
    apply list_elem_of_fmap. by exists (k, e).
  - intros He Hin'. apply list_elem_of_fmap in Hin' as (e' & Hk' & Hin').
    apply list_elem_of_filter in Hin' as [He' Hin'].
    apply list_elem_of_fmap in Hin' as ([k'' e''] & -> & Hin''). simpl in *.
    pose proof (Hkey _ Hin'') as Hk''. simpl in Hk''.
    assert (store_get k s = Some e) as H1 by by apply store_get_elem_of.
    assert (store_get k s = Some e'') as H2.
    { apply store_get_elem_of; [done|]. by rewrite Hk', <- Hk''. }
    congruence.
Qed.

Lemma clearExpiredCache_unfold (now : Z) (maxAge : option Z) (db : DB) :
  let cutoff := now - default default_maxAge maxAge in
  let swept :=
    set_events (λ s, foldl (λ s k, store_delete k s) s
                       ((λ e, KeyStr (id e)) <$>
                          filter (λ e, expired cutoff e = true) (events db).*2)) db in
  clearExpiredCache now maxAge db
  = for_each (failed_requests swept).*2 (sweep_request cutoff) swept.
Proof.
  cbv zeta. unfold clearExpiredCache, getCachedEvents, getFailedRequests, gets, bind.
  unfold store_getAll. by rewrite for_each_sweep_event.
Qed.

(** The second loop of the sweep asks for the removal of old and of
    exhausted queue entries under string keys; the entries, stored
    under the numbers the key generator gave them, all stay. *)
Lemma for_each_sweep_request_numeric cutoff (rs : list FailedRequest) (db : DB) :
  Forall (λ kr, ∃ m, kr.1 = KeyNum m) (failed_requests db) →
  Forall (λ r, is_Some (fr_id r)) rs →
  for_each rs (sweep_request cutoff) db = (Ok tt, db).
Proof.
  intros Hnum Hids. induction Hids as [|r rs [n Hn] _ IH]; [done|].
  destruct (string_key_misses_numeric_store n db Hnum) as [Hrm _].
  cbn [for_each]. unfold bind, sweep_request at 1. rewrite Hn.
  destruct (_ || _); [rewrite Hrm|]; exact IH.
Qed.

Lemma clearExpiredCache_keeps_queue_entries (now : Z) (maxAge : option Z) (db : DB) :
  Forall (λ kr, ∃ m, kr.1 = KeyNum m) (failed_requests db) →
  Forall (λ kr, is_Some (fr_id kr.2)) (failed_requests db) →
  (clearExpiredCache now maxAge db).1 = Ok tt ∧
  failed_requests (clearExpiredCache now maxAge db).2 = failed_requests db.
Proof.
  intros Hnum Hids. rewrite clearExpiredCache_unfold. cbv zeta.
  rewrite for_each_sweep_request_numeric; [done|done|].
  simpl. by apply Forall_fmap.
Qed.

End Eviction.

Section DurableStore.
Import Async OfflineStorage BackgroundSync Samples.

(** C10. Whatever request it is given, [addFailedRequest] stores it with
    [retryCount = 0] and [maxRetries = 3] and copies the other fields;
    so the entry [addOperation] persists has [maxRetries] 3 whatever
    the queued operation declares, and the entry of an order creation
    (or a payment) has 3 where the operation in memory has 5. *)
Theorem addFailedRequest_resets_retry_fields :
  (∀ (request : FailedRequest) (db : DB),
      ∃ stored db',
        addFailedRequest request db = (Ok tt, db') ∧
        store_get (KeyNum (default (failed_requests_next db) (fr_id request)))
                  (failed_requests db') = Some stored ∧
        OfflineStorage.retryCount stored = 0 ∧
        OfflineStorage.maxRetries stored = 3 ∧
        url stored = url request ∧
        OfflineStorage.method stored = OfflineStorage.method request ∧
        headers stored = headers request ∧
        body stored = body request ∧
        OfflineStorage.timestamp stored = OfflineStorage.timestamp request) ∧
  (∀ stringify now rand (operation : NewOperation) (w : World),
      let w' := addOperation stringify now rand operation w in
      ∃ queued stored,
        heap w' !! fresh (dom (heap w)) = Some queued ∧
        fresh (dom (heap w)) ∈ syncQueue w' ∧
        maxRetries queued = new_maxRetries operation ∧
        store_get (KeyNum (failed_requests_next (storage w)))
                  (failed_requests (storage w')) = Some stored ∧
        url stored = endpoint queued ∧
        OfflineStorage.timestamp stored = timestamp queued ∧
        OfflineStorage.retryCount stored = 0 ∧
        OfflineStorage.maxRetries stored = 3) ∧
  (∀ stringify now rand (data : Json) (w : World),
      ∃ queued stored,
        heap (queueOrderCreation stringify now rand data w) !! fresh (dom (heap w))
          = Some queued ∧
        maxRetries queued = 5 ∧
        store_get (KeyNum (failed_requests_next (storage w)))
                  (failed_requests (storage (queueOrderCreation stringify now rand data w)))
          = Some stored ∧
        url stored = "/api/orders/create" ∧
        OfflineStorage.maxRetries stored = 3) ∧
  (∀ stringify now rand (data : Json) (w : World),
      ∃ queued stored,
        heap (queuePayment stringify now rand data w) !! fresh (dom (heap w))
          = Some queued ∧
        maxRetries queued = 5 ∧
        store_get (KeyNum (failed_requests_next (storage w)))
                  (failed_requests (storage (queuePayment stringify now rand data w)))
          = Some stored ∧
        url stored = "/api/payments" ∧
        OfflineStorage.maxRetries stored = 3).
Proof.
  assert (∀ stringify now rand (operation : NewOperation) (w : World),
      let w' := addOperation stringify now rand operation w in
      ∃ queued stored,
        heap w' !! fresh (dom (heap w)) = Some queued ∧
        fresh (dom (heap w)) ∈ syncQueue w' ∧
        maxRetries queued = new_maxRetries operation ∧
        store_get (KeyNum (failed_requests_next (storage w)))
                  (failed_requests (storage w')) = Some stored ∧
        url stored = endpoint queued ∧
        OfflineStorage.timestamp stored = timestamp queued ∧
        OfflineStorage.retryCount stored = 0 ∧
        OfflineStorage.maxRetries stored = 3) as Hadd.
  { intros stringify now rand operation w. unfold addOperation. cbv zeta.
    eexists _, _.
    assert (∀ w0 : World, (if onLine w0 && negb (syncInProgress w0)
                           then scheduleSync 0 w0 else w0) = w0
                          ∨ (if onLine w0 && negb (syncInProgress w0)
                             then scheduleSync 0 w0 else w0) = scheduleSync 0 w0) as Hif.
    { intros w0. destruct (_ && _); auto. }
    match goal with |- context [if ?c then scheduleSync 0 ?w0 else _] =>
      destruct (Hif w0) as [-> | ->] end; simpl;
      (split; [apply lookup_insert_eq|]);
      (split; [apply elem_of_app; right; apply list_elem_of_singleton; reflexivity|]);
      (split; [reflexivity|]);
      (split; [apply store_get_put|]); done. }
  split; [|split; [exact Hadd|split]].
  - intros request db. unfold addFailedRequest, put_failed_request. simpl.
    destruct (fr_id request) as [n|] eqn:Hid; simpl;
      eexists _, _; (split; [reflexivity|]); simpl;
      (split; [apply store_get_put|]); done.
  - intros stringify now rand data w.
    destruct (Hadd stringify now rand
                (mkNewOperation Order Create data "/api/orders/create" "POST" High 5 None) w)
      as (queued & stored & Hq & _ & Hmax & Hs & Hurl & _ & _ & Hthree).
    exists queued, stored. repeat split; try done.
    rewrite Hurl. unfold queueOrderCreation, addOperation in Hq. cbv zeta in Hq.
    destruct (_ && _) in Hq; simpl in Hq; rewrite lookup_insert_eq in Hq;
      by injection Hq as <-.
  - intros stringify now rand data w.
    destruct (Hadd stringify now rand
                (mkNewOperation Payment Create data "/api/payments" "POST" High 5 None) w)
      as (queued & stored & Hq & _ & Hmax & Hs & Hurl & _ & _ & Hthree).
    exists queued, stored. repeat split; try done.
    rewrite Hurl. unfold queuePayment, addOperation in Hq. cbv zeta in Hq.
    destruct (_ && _) in Hq; simpl in Hq; rewrite lookup_insert_eq in Hq;
      by injection Hq as <-.
Qed.

(** C4, as stated, fails: an event that is marked [pending] and was
    cached more than seven days ago is removed by the sweep. *)
Lemma clearExpiredCache_removes_pending_event :
  ∃ e : StoredEvent,
    store_get (KeyStr "evt-1") (events db_pending_event) = Some e ∧
    syncStatus e = pending ∧
    store_get (KeyStr "evt-1")
      (events (clearExpiredCache (8 * day) None db_pending_event).2) = None.
Proof. eexists. vm_compute. repeat split. Qed.

(** C4, amended. The sweep removes exactly the cached events whose
    [cachedAt] is older than [now - maxAge] (seven days unless a
    [maxAge] is passed), whatever their [syncStatus]; it keeps the
    others, and leaves orders, tickets, preferences and cart items as
    they are. *)
Theorem clearExpiredCache_evicts_by_age (now : Z) (maxAge : option Z) (db : DB) :
  events_keyed (events db) →
  let cutoff := now - default (7 * 24 * 60 * 60 * 1000) maxAge in
  let db' := (clearExpiredCache now maxAge db).2 in
  events db' = filter (λ kr, expired cutoff kr.2 = false) (events db) ∧
  (∀ k e, store_get k (events db) = Some e →
          store_get k (events db') = if cachedAt e <? cutoff then None else Some e) ∧
  orders db' = orders db ∧ tickets db' = tickets db ∧
  user_preferences db' = user_preferences db ∧ cart_items db' = cart_items db.
Proof.
  intros Hkeyed. cbv zeta.
  change (7 * 24 * 60 * 60 * 1000) with default_maxAge.
  set (cutoff := now - default default_maxAge maxAge).
  assert (events (clearExpiredCache now maxAge db).2
          = filter (λ kr, expired cutoff kr.2 = false) (events db)
          ∧ same_caches
              (set_events (λ _, filter (λ kr, expired cutoff kr.2 = false) (events db)) db)
              (clearExpiredCache now maxAge db).2) as [Hev Hrest].
  { rewrite clearExpiredCache_unfold. fold cutoff.
    match goal with |- context [for_each ?rs (sweep_request cutoff) ?d] =>
      pose proof (for_each_sweep_request_frame cutoff rs d) as Hframe end.
    destruct Hframe as (H1 & H2 & H3 & H4 & H5). simpl in *.
    rewrite foldl_store_delete, (sweep_keeps_fresh cutoff _ Hkeyed) in H1.
    split; [exact H1|]. by repeat split. }
  destruct Hrest as (_ & H2 & H3 & H4 & H5). simpl in *.
  split; [exact Hev|]. split; [|done].
  intros k e Hget. rewrite Hev. destruct Hkeyed as [Hnd Hkey].
  apply store_get_Some in Hget as Hin.
  destruct (cachedAt e <? cutoff) eqn:He.
  - apply store_get_None. intros Hk.
    apply list_elem_of_fmap in Hk as ([k' e'] & -> & Hin').
    apply list_elem_of_filter in Hin' as [Hfresh Hin']. simpl in *.
    assert (store_get k' (events db) = Some e') as Hget' by by apply store_get_elem_of.
    unfold expired in Hfresh. congruence.
  - apply store_get_elem_of.
    + apply (NoDup_fmap_filter_fst _ _ Hnd).
    + apply list_elem_of_filter. split; [exact He|exact Hin].
Qed.

(** The sweep on a store that holds an old event marked [pending]
    next to a fresh one: only the fresh one is left. *)
Lemma clearExpiredCache_evicts_by_age_witness :
  events_keyed (events db_two_events) ∧
  events (clearExpiredCache (8 * day) None db_two_events).2
  = [(KeyStr "evt-2", festival)].
Proof.
  assert (events_keyed (events db_two_events)) as Hk.
  { split; vm_compute.
    - apply NoDup_cons. split; [|apply NoDup_singleton].
      intros Hin. apply list_elem_of_singleton in Hin. discriminate Hin.
    - by repeat constructor. }
  split; [exact Hk|].
  destruct (clearExpiredCache_evicts_by_age (8 * day) None db_two_events Hk)
    as [-> _].
  reflexivity.
Defined.

End DurableStore.

(** * Properties of the Sync Queue Manager *)

Section Attempt.
Import Async OfflineStorage BackgroundSync Samples.

Lemma try_catch_ignore {St} (m : Async.M St unit) (st : St) :
  (try_catch m (λ _, ret tt) st).1 = Ok tt.
Proof. unfold try_catch. by destruct (m st) as [[[]|e] st']. Qed.

Lemma handleSuccessfulOperation_resolves now rand operation response db :
  (handleSuccessfulOperation now rand operation response db).1 = Ok tt.
Proof. unfold handleSuccessfulOperation. apply try_catch_ignore. Qed.

(** An attempt is a success exactly when the reply is a confirmed
    success. *)
Lemma executeOperation_outcome (o : SyncOperation) (r : Reply) (db : DB) :
  ∃ result db',
    executeOperation o r db = (Ok result, db') ∧ success result = succeeds r.
Proof.
  unfold executeOperation, try_catch, succeeds.
  destruct (outcome r) as [message|status statusText [responseData|]]; simpl.
  - by eexists _, _.
  - destruct (ok status); simpl; [|by eexists _, _].
    unfold bind.
    destruct (handleSuccessfulOperation (now r) (rand r) o responseData db)
      as [[[]|e] db'] eqn:Hh; simpl; [by eexists _, _|].
    pose proof (handleSuccessfulOperation_resolves (now r) (rand r) o responseData db)
      as Hok.
    by rewrite Hh in Hok.
  - destruct (ok status); simpl; by eexists _, _.
Qed.

(** [executeOperation] catches whatever goes wrong. *)
Lemma executeOperation_resolves (operation : SyncOperation) (r : Reply) (db : DB) :
  ∃ result db', executeOperation operation r db = (Ok result, db').
Proof.
  unfold executeOperation, try_catch.
  destruct (outcome r) as [message|status statusText [responseData|]]; simpl.
  - by eexists _, _.
  - destruct (negb (ok status)); simpl; [by eexists _, _|].
    unfold bind.
    destruct (handleSuccessfulOperation (now r) (rand r) operation responseData db)
      as [[[]|e] db'] eqn:Hh; simpl; by eexists _, _.
  - destruct (negb (ok status)); simpl; by eexists _, _.
Qed.

(** An attempt that ends in an error leaves the local cache alone and
    reports the error. *)
Lemma executeOperation_not_ok operation r status statusText json db :
  outcome r = Http status statusText json →
  ok status = false →
  executeOperation operation r db
  = (Ok (failure operation ("HTTP " +:+ toString status +:+ ": " +:+ statusText)), db).
Proof.
  intros Hout Hok. unfold executeOperation, try_catch. by rewrite Hout, Hok.
Qed.

Lemma executeOperation_network_error operation r message db :
  outcome r = NetworkError message →
  executeOperation operation r db = (Ok (failure operation message), db).
Proof. intros Hout. unfold executeOperation, try_catch. by rewrite Hout. Qed.

Lemma executeOperation_retryable operation r db :
  retryable (outcome r) = true →
  ∃ message, executeOperation operation r db = (Ok (failure operation message), db).
Proof.
  intros Hretry. destruct (outcome r) as [message|status statusText json] eqn:Hout.
  - eexists. by apply executeOperation_network_error.
  - eexists. eapply executeOperation_not_ok; [done|].
    unfold retryable in Hretry. unfold ok. lia.
Qed.

(** The entries of [retryDelays], by position. *)
Lemma retryDelay_after_failure (n : Z) :
  0 ≤ n →
  retryDelays !! Z.to_nat (Z.min n 4) = Some (retryDelay (n + 1)) ∧
  (4 ≤ n → retryDelay (n + 1) = 60000).
Proof.
  intros Hn. unfold retryDelay.
  replace (n + 1 - 1) with n by lia.
  change (Z.of_nat (length retryDelays) - 1) with 4.
  assert (Z.min n 4 = 0 ∨ Z.min n 4 = 1 ∨ Z.min n 4 = 2 ∨ Z.min n 4 = 3
          ∨ (Z.min n 4 = 4 ∧ 4 ≤ n)) as Hcases by lia.
  destruct Hcases as [H|[H|[H|[H|[H H4]]]]]; rewrite H; simpl;
    (split; [reflexivity|]); first [lia | done].
Qed.

(** C7, as stated, fails on the last retry: a payment that has failed
    four times out of five has not exhausted [maxRetries]; when it fails
    once more with 503 it is taken out of the queue, [SYNC_FAILED] is
    dispatched and no retry is scheduled. *)
Lemma last_retry_is_not_rescheduled :
  let operation :=
    mkSyncOperation "sync-7-q" Payment Create JNull "/api/payments" "POST" High 4 5 7 None in
  let w := mkWorld true [3%nat] {[3%nat := operation]} empty_db true [] in
  heap w !! 3%nat = Some operation ∧
  retryable (outcome unavailable) = true ∧
  retryCount operation < maxRetries operation ∧
  syncQueue (settle unavailable 3%nat w).2 = [] ∧
  log (settle unavailable 3%nat w).2
    = [Notify SYNC_FAILED 3%nat (incr_retryCount operation)].
Proof. vm_compute. repeat split. Qed.

(** C7, amended. An operation that fails with a retryable error (a
    network error, a 5xx answer, 408 or 429) has its [retryCount]
    incremented.  If the incremented count is still below [maxRetries]
    the operation stays in the queue and a sync is scheduled after the
    entry of 1s, 5s, 15s, 30s, 60s given by the number of failures
    before this one, the last entry serving from the fifth failure on.
    If the increment brings the count up to [maxRetries] the operation
    leaves the queue, [SYNC_FAILED] is dispatched and nothing is
    scheduled. *)
Theorem settle_retryable_failure_backs_off
    (r : Reply) (l : loc) (operation : SyncOperation) (w : World) :
  heap w !! l = Some operation →
  retryable (outcome r) = true →
  0 ≤ retryCount operation →
  ∃ delay,
    [1000; 5000; 15000; 30000; 60000] !! Z.to_nat (Z.min (retryCount operation) 4)
      = Some delay ∧
    (4 ≤ retryCount operation → delay = 60000) ∧
    heap (settle r l w).2 !! l = Some (incr_retryCount operation) ∧
    (if retryCount operation + 1 <? maxRetries operation then
       (syncQueue (settle r l w).2 = syncQueue w ∧
        log (settle r l w).2 = log w ++ [Schedule delay])
     else
       ((l ∉ syncQueue (settle r l w).2) ∧
        log (settle r l w).2
          = log w ++ [Notify SYNC_FAILED l (incr_retryCount operation)])).
Proof.
  intros Hl Hretry Hpos.
  destruct (executeOperation_retryable operation r (storage w) Hretry) as [message Hexec].
  destruct (retryDelay_after_failure (retryCount operation) Hpos) as [Hdelay Hcap].
  exists (retryDelay (retryCount operation + 1)).
  split; [exact Hdelay|]. split; [exact Hcap|].
  unfold settle. rewrite Hl, Hexec. cbn [success failure].
  cbn [incr_retryCount maxRetries retryCount].
  destruct (Z.ltb_spec (retryCount operation + 1) (maxRetries operation)) as [Hlt|Hge].
  - destruct (Z.leb_spec (maxRetries operation) (retryCount operation + 1)); [lia|].
    cbn. rewrite lookup_insert_eq. by repeat split.
  - destruct (Z.leb_spec (maxRetries operation) (retryCount operation + 1)); [|lia].
    cbn. rewrite lookup_insert_eq. split; [done|]. split; [|done].
    unfold without_id. intros [Hid _]%list_elem_of_filter.
    apply Hid. by rewrite lookup_insert_eq.
Qed.

(** A payment that has failed four times out of six fails a fifth time
    with 503: the retry is scheduled a minute later. *)
Lemma settle_retryable_failure_backs_off_witness :
  let operation :=
    mkSyncOperation "sync-7-q" Payment Create JNull "/api/payments" "POST" High 4 6 7 None in
  let w := mkWorld true [3%nat] {[3%nat := operation]} empty_db true [] in
  heap w !! 3%nat = Some operation ∧
  retryable (outcome unavailable) = true ∧
  0 ≤ retryCount operation ∧
  log (settle unavailable 3%nat w).2 = [Schedule 60000].
Proof.
  cbv zeta.
  split; [reflexivity|]. split; [reflexivity|]. split; [simpl; lia|].
  destruct (settle_retryable_failure_backs_off unavailable 3%nat
              (mkSyncOperation "sync-7-q" Payment Create JNull "/api/payments"
                               "POST" High 4 6 7 None)
              (mkWorld true [3%nat]
                 {[3%nat := mkSyncOperation "sync-7-q" Payment Create JNull
                              "/api/payments" "POST" High 4 6 7 None]}
                 empty_db true []))
    as (delay & _ & Hcap & _ & Hcases);
    [reflexivity | reflexivity | simpl; lia |].
  cbn in Hcases. destruct Hcases as [_ Hlog].
  rewrite Hlog. simpl. rewrite Hcap; [reflexivity | simpl; lia].
Defined.

(** A client error is handled like any other failure: while retries
    are left the operation stays queued, its [retryCount] goes up and a
    retry is scheduled. *)
Lemma settle_client_error_is_retried
    (r : Reply) (l : loc) (operation : SyncOperation) (w : World) :
  heap w !! l = Some operation →
  client_error (outcome r) = true →
  retryCount operation + 1 < maxRetries operation →
  heap (settle r l w).2 !! l = Some (incr_retryCount operation) ∧
  syncQueue (settle r l w).2 = syncQueue w ∧
  log (settle r l w).2 = log w ++ [Schedule (retryDelay (retryCount operation + 1))].
Proof.
  intros Hl Hclient Hleft.
  destruct (outcome r) as [message|status statusText json] eqn:Hout; [done|].
  assert (ok status = false) as Hok by (unfold client_error in Hclient; unfold ok; lia).
  unfold settle. rewrite Hl, (executeOperation_not_ok _ _ _ _ _ _ Hout Hok). simpl.
  destruct (maxRetries operation <=? retryCount operation + 1) eqn:Hcmp; [lia|].
  simpl. by rewrite lookup_insert_eq.
Qed.

(** C1. A queued order creation is answered 404.  [shouldRetry] says
    the error is not to be retried, but the drain pass never asks it:
    the operation stays in the queue with its [retryCount] raised to 1,
    no [SYNC_FAILED] event is dispatched, and a retry is scheduled a
    second later. *)
Theorem performSync_retries_client_error :
  ∃ operation : SyncOperation,
    heap one_order !! 0%nat = Some operation ∧
    retryCount operation = 0 ∧
    client_error (outcome not_found) = true ∧
    shouldRetry operation "HTTP 404: Not Found" = false ∧
    (performSync (λ _, not_found) one_order).1
      = [failure (incr_retryCount operation) "HTTP 404: Not Found"] ∧
    syncQueue (performSync (λ _, not_found) one_order).2 = [0%nat] ∧
    heap (performSync (λ _, not_found) one_order).2 !! 0%nat
      = Some (incr_retryCount operation) ∧
    log (performSync (λ _, not_found) one_order).2
      = log one_order ++ [Fetch 0%nat operation; Schedule 1000].
Proof. eexists. vm_compute. repeat split. Qed.

(** C8. A successfully synced operation of type [ticket] changes nothing
    in the Durable Store, whatever the server answered: the [switch] of
    [handleSuccessfulOperation] has no case for it. *)
Theorem handleSuccessfulOperation_ignores_ticket
    (now : Z) (rand : string) (id : string) (action : Action) (data : Json)
    (endpoint method : string) (priority : Priority) (retryCount maxRetries timestamp : Z)
    (userId : option string) (response : Json) (db : DB) :
  handleSuccessfulOperation now rand
    (mkSyncOperation id Ticket action data endpoint method priority
                     retryCount maxRetries timestamp userId)
    response db
  = (Ok tt, db).
Proof. reflexivity. Qed.

(** The other members of the enumeration do reach the store: the answer
    to an order creation fills the order cache and the ticket cache, a
    preference update overwrites the keys it names. *)
Example handleSuccessfulOperation_order_create :
  let response :=
    JObj [("order", JObj [("id", JStr "ord-1")]);
          ("tickets", JArr [JObj [("id", JStr "tic-1")]; JObj [("id", JStr "tic-2")]])] in
  let db :=
    (handleSuccessfulOperation 500 "a"
       (mkSyncOperation "sync-1-a" Order Create JNull "/api/orders/create" "POST"
                        High 0 5 100 None)
       response empty_db).2 in
  (orders db).*1 = [KeyStr "ord-1"] ∧ (tickets db).*1 = [KeyStr "tic-1"; KeyStr "tic-2"].
Proof. vm_compute. done. Qed.

Example handleSuccessfulOperation_preference_update :
  let db0 := (setUserPreference 1 "theme" (JStr "light") empty_db).2 in
  let db :=
    (handleSuccessfulOperation 500 "a"
       (mkSyncOperation "sync-1-a" UserPreference Update
                        (JObj [("theme", JStr "dark")]) "/api/users/preferences"
                        "PATCH" Low 0 2 100 None)
       JNull db0).2 in
  value <$> store_get (KeyStr "theme") (user_preferences db) = Some (JStr "dark").
Proof. vm_compute. done. Qed.

End Attempt.


(** * Properties of the Notification Scheduler *)

Section Reminders.
Import OfflineStorage Notifications Samples.

(** C9. Whatever runs, and whenever, the stored reminders stay as they
    are and the only notifications shown are the ones a push message
    carries: a reminder is never fired and never removed. *)
Theorem activities_never_deliver_reminders (st : State) (l : list Activity) :
  scheduled (activities st l) = scheduled st ∧
  shown (activities st l) = shown st ++ omap pushed l.
Proof.
  revert st. induction l as [|a l IH]; intros st; simpl.
  - by rewrite app_nil_r.
  - destruct (IH (on_activity st a)) as [Hs Hn].
    unfold activities in *. simpl. rewrite Hs, Hn.
    destruct a; simpl; try done.
    destruct (ServiceWorker.onPush data); simpl; [|done].
    by rewrite <- app_assoc.
Qed.

(** The scenario of the specification: the reminder is due at minute
    10; by minute 15 the application has been brought to the foreground
    and the worker has been woken, yet nothing was shown and the
    reminder is still stored. *)
Example reminder_still_stored_after_due :
  let st := activities reminder_scheduled
              [PageForeground; WorkerSync "background-sync"; PagePeriodicSync] in
  (reminderTime <$> store_get (KeyStr "reminder-evt-1-600000") (scheduled st))
    = Some (Some (10 * minute)) ∧
  10 * minute < 15 * minute ∧
  shown st = [].
Proof. vm_compute. done. Qed.

End Reminders.

(** * Properties of the Cache Strategy Engine *)

Section CacheStrategy.
Import Async ServiceWorker.
Context {C D : Type} (cs : CacheStorage C) (rs : RequestStore D).
Context (net : Request → NetResult) (origin : string) (now : Z).
Implicit Types (request : Request) (st : State C D).

(** The calls on Cache Storage that reject and are not caught. *)

Lemma handleStaticRequest_open_rejects request st (e : string) (c' : C) :
  storage_open cs STATIC_CACHE (caches st) = (Throw e, c') →
  handleStaticRequest cs net request st = (Throw e, mkState c' (database st)).
Proof.
  intros Hopen. unfold handleStaticRequest, bind, on_caches. by rewrite Hopen.
Qed.

Lemma handleStaticRequest_match_rejects request st (e : string) (c1 c2 : C) :
  storage_open cs STATIC_CACHE (caches st) = (Ok tt, c1) →
  cache_match cs STATIC_CACHE request c1 = (Throw e, c2) →
  handleStaticRequest cs net request st = (Throw e, mkState c2 (database st)).
Proof.
  intros Hopen Hmatch. unfold handleStaticRequest, bind, on_caches.
  rewrite Hopen. cbn [caches]. by rewrite Hmatch.
Qed.

Lemma handleApiRequest_fallback_rejects request st (e e' : string) (c' : C) :
  net request = Fails e →
  storage_match cs request (caches st) = (Throw e', c') →
  handleApiRequest cs net request st = (Throw e', mkState c' (database st)).
Proof.
  intros Hnet Hmatch. unfold handleApiRequest, try_catch, bind, fetch, on_caches.
  rewrite Hnet. cbn [throw]. by rewrite Hmatch.
Qed.

Lemma handleApiRequest_open_rejects request st (r : Response) (e e' : string) (c1 c2 : C) :
  net request = Answers r →
  ok r = true →
  storage_open cs DYNAMIC_CACHE (caches st) = (Throw e, c1) →
  storage_match cs request c1 = (Throw e', c2) →
  handleApiRequest cs net request st = (Throw e', mkState c2 (database st)).
Proof.
  intros Hnet Hok Hopen Hmatch.
  unfold handleApiRequest, try_catch, bind, fetch, on_caches.
  rewrite Hnet. cbv [ret]. cbv beta iota. rewrite Hok. cbv beta iota.
  rewrite Hopen. cbn [caches]. by rewrite Hmatch.
Qed.

Lemma handleNavigationRequest_fallback_rejects request st (e e' : string) (c' : C) :
  net request = Fails e →
  storage_match cs request (caches st) = (Throw e', c') →
  handleNavigationRequest cs net origin request st
  = (Throw e', mkState c' (database st)).
Proof.
  intros Hnet Hmatch. unfold handleNavigationRequest, try_catch, bind, fetch, on_caches.
  rewrite Hnet. cbn [throw]. by rewrite Hmatch.
Qed.

(** The answers made up when the network fails and the cache, asked
    without trouble, holds nothing. *)

Lemma handleApiRequest_offline request st (e : string) (c' : C) :
  net request = Fails e →
  storage_match cs request (caches st) = (Ok None, c') →
  handleApiRequest cs net request st
  = (Ok offline_api_response, mkState c' (database st)).
Proof.
  intros Hnet Hmiss. unfold handleApiRequest, try_catch, bind, fetch, on_caches.
  rewrite Hnet. cbn [throw]. by rewrite Hmiss.
Qed.

Lemma handleStaticRequest_offline request st (e : string) (c1 c2 : C) :
  storage_open cs STATIC_CACHE (caches st) = (Ok tt, c1) →
  cache_match cs STATIC_CACHE request c1 = (Ok None, c2) →
  net request = Fails e →
  handleStaticRequest cs net request st
  = (Ok offline_asset_response, mkState c2 (database st)).
Proof.
  intros Hopen Hmiss Hnet. unfold handleStaticRequest, try_catch, bind, fetch, on_caches.
  rewrite Hopen. cbn [caches]. rewrite Hmiss, Hnet. reflexivity.
Qed.

Lemma offline_api_response_payload :
  status offline_api_response = 503 ∧
  ∃ payload, body offline_api_response = JsonText payload ∧
             Js.prop "offline" payload = Some (JBool true).
Proof. split; [done|]. by eexists. Qed.

Lemma offline_asset_response_payload :
  status offline_asset_response = 503 ∧
  body offline_asset_response = Text "Asset not available offline".
Proof. done. Qed.

(** While Cache Storage rejects no call, every handler of a GET
    resolves. *)

Lemma handleApiRequest_resolves request st :
  never_rejects cs →
  ∃ response st', handleApiRequest cs net request st = (Ok response, st').
Proof.
  intros (Hopen & _ & Hmatch).
  unfold handleApiRequest, try_catch, bind, fetch, on_caches, put_unawaited,
    modify, ret, throw.
  destruct (net request) as [r|e].
  - destruct (ok r); [|by eexists _, _].
    specialize (Hopen DYNAMIC_CACHE (caches st)).
    destruct (storage_open cs DYNAMIC_CACHE (caches st)) as [[[]|e] c1];
      simpl in Hopen; [|done].
    destruct (existsb _ _); by eexists _, _.
  - destruct (Hmatch request (caches st)) as [found Hfound].
    destruct (storage_match cs request (caches st)) as [[found'|e'] c1];
      simpl in Hfound; [|done].
    destruct found'; by eexists _, _.
Qed.

Lemma handleStaticRequest_resolves request st :
  never_rejects cs →
  ∃ response st', handleStaticRequest cs net request st = (Ok response, st').
Proof.
  intros (Hopen & Hmatch & _).
  unfold handleStaticRequest, try_catch, bind, fetch, on_caches, put_unawaited,
    modify, ret, throw.
  specialize (Hopen STATIC_CACHE (caches st)).
  destruct (storage_open cs STATIC_CACHE (caches st)) as [[[]|e] c1];
    simpl in Hopen; [|done].
  cbn [caches].
  destruct (Hmatch STATIC_CACHE request c1) as [found Hfound].
  destruct (cache_match cs STATIC_CACHE request c1) as [[found'|e'] c2];
    simpl in Hfound; [|done].
  destruct found'; [by eexists _, _|].
  destruct (net request) as [r|e]; [|by eexists _, _].
  destruct (ok r); by eexists _, _.
Qed.

Lemma handleNavigationRequest_resolves request st :
  never_rejects cs →
  ∃ response st', handleNavigationRequest cs net origin request st = (Ok response, st').
Proof.
  intros (Hopen & _ & Hmatch).
  unfold handleNavigationRequest, try_catch, bind, fetch, on_caches, put_unawaited,
    modify, ret, throw.
  destruct (net request) as [r|e].
  - destruct (ok r); [|by eexists _, _].
    specialize (Hopen DYNAMIC_CACHE (caches st)).
    destruct (storage_open cs DYNAMIC_CACHE (caches st)) as [[[]|e] c1];
      simpl in Hopen; [|done].
    by eexists _, _.
  - destruct (Hmatch request (caches st)) as [found Hfound].
    destruct (storage_match cs request (caches st)) as [[found'|e'] c1];
      simpl in Hfound; [|done].
    destruct found'; [by eexists _, _|]. cbn [caches].
    destruct (Hmatch (offline_page_request origin) c1) as [page Hpage].
    destruct (storage_match cs (offline_page_request origin) c1) as [[page'|e'] c2];
      simpl in Hpage; [|done].
    by eexists _, _.
Qed.

Lemma onFetch_GET_responds_while_caches_resolve request st :
  never_rejects cs →
  method request = "GET" →
  ∃ handler response st',
    onFetch cs rs net origin now request = Some handler ∧
    handler st = (Ok response, st').
Proof.
  intros Hcs Hget. unfold onFetch. rewrite Hget. cbn [String.eqb Ascii.eqb Bool.eqb].
  destruct (Js.startsWith "/api/" (pathname request)).
  - destruct (handleApiRequest_resolves request st Hcs) as (response & st' & Hrun).
    by eexists _, _, _.
  - destruct (Js.startsWith "/_next/static/" (pathname request)
              || Js.includes "." (pathname request)).
    + destruct (handleStaticRequest_resolves request st Hcs) as (response & st' & Hrun).
      by eexists _, _, _.
    + destruct (handleNavigationRequest_resolves request st Hcs)
        as (response & st' & Hrun).
      by eexists _, _, _.
Qed.

End CacheStrategy.

Section CacheStrategyClaims.
Import Async ServiceWorker Samples.

(** The caches of [empty_caches] reject nothing, and leave the two
    made-up answers to a network that is down. *)
Lemma empty_caches_answer_offline :
  never_rejects empty_caches ∧
  handleApiRequest empty_caches offline api_request nothing_cached
  = (Ok offline_api_response, nothing_cached) ∧
  handleStaticRequest empty_caches offline asset_request nothing_cached
  = (Ok offline_asset_response, nothing_cached).
Proof.
  split; [|done]. split; [done|]. split; intros; by eexists.
Qed.

(** C5. Not every intercepted GET request is answered.  The handlers
    catch what [fetch] throws, but [handleStaticRequest] opens the
    static cache and looks the request up before its [try], and the
    [catch] blocks of [handleApiRequest] and [handleNavigationRequest]
    call [caches.match] unguarded.  With a Cache Storage whose calls
    reject, the listener picks [handleStaticRequest] for a picture and
    the handler rejects whatever the network does; the handler of an
    API request rejects both when the network is down and when the
    server has answered with an ok response, the rejected
    [caches.open] having sent it to the [catch] block; a navigation
    that cannot reach the network rejects too. *)
Theorem handlers_reject_when_cache_storage_rejects :
  let events := mkResponse 200 [("Content-Type", "application/json")]
                  (JsonText (JArr [])) in
  let page := mkRequest "https://tiko.app/events" "/events" "GET" [] in
  (∀ net : Request → NetResult,
     onFetch broken_caches upgraded_database net "https://tiko.app" 0 asset_request
     = Some (handleStaticRequest broken_caches net asset_request) ∧
     handleStaticRequest broken_caches net asset_request out_of_order
     = (Throw "UnknownError", out_of_order)) ∧
  onFetch broken_caches upgraded_database offline "https://tiko.app" 0 api_request
  = Some (handleApiRequest broken_caches offline api_request) ∧
  handleApiRequest broken_caches offline api_request out_of_order
  = (Throw "UnknownError", out_of_order) ∧
  handleApiRequest broken_caches (λ _, Answers events) api_request out_of_order
  = (Throw "UnknownError", out_of_order) ∧
  onFetch broken_caches upgraded_database offline "https://tiko.app" 0 page
  = Some (handleNavigationRequest broken_caches offline "https://tiko.app" page) ∧
  handleNavigationRequest broken_caches offline "https://tiko.app" page out_of_order
  = (Throw "UnknownError", out_of_order).
Proof.
  cbv zeta. split; [|repeat split].
  intros net. split; [reflexivity|].
  by apply (handleStaticRequest_open_rejects broken_caches net asset_request
              out_of_order "UnknownError" tt).
Qed.

End CacheStrategyClaims.


(** * The order of a drain pass *)

Section SortFacts.
Import BackgroundSync.
Context {A : Type} (cmp : A → A → Z) (P : A → Prop).
Hypothesis cmp_total : ∀ x y, P x → P y → 0 < cmp x y → cmp y x ≤ 0.
Hypothesis cmp_trans :
  ∀ x y z, P x → P y → P z → cmp x y ≤ 0 → cmp y z ≤ 0 → cmp x z ≤ 0.

Lemma insert_sorted_Permutation (x : A) (l : list A) :
  insert_sorted cmp x l ≡ₚ x :: l.
Proof.
  induction l as [|y l IH]; simpl; [done|].
  destruct (cmp x y <=? 0); [done|].
  rewrite IH. apply Permutation_swap.
Qed.

Lemma sort_Permutation (l : list A) : sort cmp l ≡ₚ l.
Proof.
  induction l as [|x l IH]; simpl; [done|].
  by rewrite insert_sorted_Permutation, IH.
Qed.

Lemma insert_sorted_StronglySorted (x : A) (l : list A) :
  P x → Forall P l →
  StronglySorted (λ a b, cmp a b ≤ 0) l →
  StronglySorted (λ a b, cmp a b ≤ 0) (insert_sorted cmp x l).
Proof.
  intros Hx Hl Hsorted. induction l as [|y l IH]; simpl.
  - by repeat constructor.
  - apply Forall_cons in Hl as [Hy Hl].
    apply StronglySorted_cons in Hsorted as [Hyl Hsorted].
    destruct (cmp x y <=? 0) eqn:Hxy.
    + apply StronglySorted_cons. split; [|by apply StronglySorted_cons].
      apply Forall_cons. split; [lia|].
      rewrite Forall_forall in Hyl, Hl |- *. intros z Hz.
      apply (cmp_trans x y z); auto with lia.
    + apply StronglySorted_cons. split; [|by apply IH].
      rewrite insert_sorted_Permutation. apply Forall_cons. split; [|done].
      apply cmp_total; auto with lia.
Qed.

Lemma sort_StronglySorted (l : list A) :
  Forall P l → StronglySorted (λ a b, cmp a b ≤ 0) (sort cmp l).
Proof.
  induction l as [|x l IH]; simpl; intros Hl; [constructor|].
  apply Forall_cons in Hl as [Hx Hl].
  apply insert_sorted_StronglySorted; [done| |by apply IH].
  by rewrite sort_Permutation.
Qed.

End SortFacts.

Section StronglySortedFacts.
Context {A : Type} (R : A → A → Prop).

Lemma StronglySorted_lookup_lt (l : list A) (i j : nat) (a b : A) :
  StronglySorted R l → l !! i = Some a → l !! j = Some b → (i < j)%nat → R a b.
Proof.
  intros Hsorted. revert i j. induction Hsorted as [|x l Hsorted IH Hx];
    intros i j Hi Hj Hlt; [done|].
  destruct j as [|j]; [lia|]. simpl in Hj.
  destruct i as [|i]; simpl in Hi.
  - injection Hi as ->. rewrite Forall_forall in Hx. apply Hx.
    by eapply list_elem_of_lookup_2.
  - apply (IH i j); auto with lia.
Qed.

End StronglySortedFacts.

Section DrainOrder.
Import Async OfflineStorage BackgroundSync Samples.

Lemma higher_priority_order (a b : SyncOperation) :
  higher_priority a b ↔ priorityOrder (priority b) < priorityOrder (priority a).
Proof.
  unfold higher_priority. destruct (priority a), (priority b); simpl; split; lia || done.
Qed.

Lemma same_priority_order (a b : SyncOperation) :
  priority a = priority b ↔ priorityOrder (priority a) = priorityOrder (priority b).
Proof. destruct (priority a), (priority b); simpl; split; done || lia. Qed.

(** The comparator puts [a] no later than [b] exactly when [a] comes
    first in (priority descending, timestamp ascending). *)
Lemma compareOps_drain_order (a b : SyncOperation) :
  compareOps a b ≤ 0 ↔ drain_order a b.
Proof.
  unfold drain_order. rewrite higher_priority_order, same_priority_order.
  unfold compareOps.
  destruct (priorityOrder (priority b) - priorityOrder (priority a) =? 0) eqn:Hd;
    simpl; lia.
Qed.

Lemma compareLocs_total (h : gmap loc SyncOperation) (x y : loc) :
  is_Some (h !! x) → is_Some (h !! y) →
  0 < compareLocs h x y → compareLocs h y x ≤ 0.
Proof.
  intros [ox Hx] [oy Hy]. unfold compareLocs. rewrite Hx, Hy.
  intros Hlt. apply compareOps_drain_order.
  assert (¬ drain_order ox oy) as Hn by (rewrite <- compareOps_drain_order; lia).
  revert Hn. unfold drain_order. rewrite !higher_priority_order, !same_priority_order. lia.
Qed.

Lemma compareLocs_trans (h : gmap loc SyncOperation) (x y z : loc) :
  is_Some (h !! x) → is_Some (h !! y) → is_Some (h !! z) →
  compareLocs h x y ≤ 0 → compareLocs h y z ≤ 0 → compareLocs h x z ≤ 0.
Proof.
  intros [ox Hx] [oy Hy] [oz Hz]. unfold compareLocs. rewrite Hx, Hy, Hz.
  rewrite !compareOps_drain_order. unfold drain_order.
  rewrite !higher_priority_order, !same_priority_order. lia.
Qed.

Lemma sortedQueue_Permutation (w : World) : sortedQueue w ≡ₚ syncQueue w.
Proof. apply sort_Permutation. Qed.

Lemma sortedQueue_sorted (w : World) :
  (∀ l, l ∈ syncQueue w → is_Some (heap w !! l)) →
  StronglySorted (drained_before (heap w)) (sortedQueue w).
Proof.
  intros Halloc.
  assert (Forall (λ l, is_Some (heap w !! l)) (sortedQueue w)) as Hall.
  { rewrite sortedQueue_Permutation. by apply Forall_forall. }
  assert (StronglySorted (λ a b, compareLocs (heap w) a b ≤ 0) (sortedQueue w)) as Hs.
  { apply (sort_StronglySorted _ (λ l, is_Some (heap w !! l))).
    - apply compareLocs_total.
    - apply compareLocs_trans.
    - by apply Forall_forall. }
  revert Hall. induction Hs as [|x l Hs IH Hx]; intros Hall; [constructor|].
  apply Forall_cons in Hall as [[ox Hox] Hall].
  constructor; [by apply IH|].
  rewrite Forall_forall in Hx, Hall |- *. intros y Hy.
  destruct (Hall y Hy) as [oy Hoy]. specialize (Hx y Hy).
  unfold compareLocs in Hx. rewrite Hox, Hoy in Hx.
  exists ox, oy. by rewrite <- compareOps_drain_order.
Qed.

End DrainOrder.

Section DrainSteps.
Import Async OfflineStorage BackgroundSync Samples.

Lemma issue_spec (l : loc) (o : SyncOperation) (w : World) :
  heap w !! l = Some o →
  issue l w = emit (Fetch l o) w.
Proof. intros Hl. unfold issue. by rewrite Hl. Qed.

(** The three ways an attempt can end, seen on the queue, the objects
    and the log. *)
Lemma settle_spec (r : Reply) (l : loc) (o : SyncOperation) (w : World) :
  heap w !! l = Some o →
  syncInProgress (settle r l w).2 = syncInProgress w ∧
  ((heap (settle r l w).2 = heap w ∧
    syncQueue (settle r l w).2 = without_id (id o) (heap w) (syncQueue w) ∧
    log (settle r l w).2 = log w ++ [Notify SYNC_SUCCESS l o])
   ∨ (maxRetries o ≤ retryCount o + 1 ∧
      heap (settle r l w).2 = <[l := incr_retryCount o]> (heap w) ∧
      syncQueue (settle r l w).2
        = without_id (id o) (<[l := incr_retryCount o]> (heap w)) (syncQueue w) ∧
      log (settle r l w).2 = log w ++ [Notify SYNC_FAILED l (incr_retryCount o)])
   ∨ (retryCount o + 1 < maxRetries o ∧
      heap (settle r l w).2 = <[l := incr_retryCount o]> (heap w) ∧
      syncQueue (settle r l w).2 = syncQueue w ∧
      log (settle r l w).2 = log w ++ [Schedule (retryDelay (retryCount o + 1))])).
Proof.
  intros Hl. unfold settle. rewrite Hl.
  destruct (executeOperation_resolves o r (storage w)) as (result & db' & ->).
  destruct (success result); simpl.
  - split; [done|]. by left.
  - destruct (maxRetries o <=? retryCount o + 1) eqn:Hcmp; simpl.
    + split; [done|]. right. left. repeat split; try done. lia.
    + split; [done|]. right. right. repeat split; try done. lia.
Qed.

(** The same, told from the reply. *)
Lemma settle_outcome (r : Reply) (l : loc) (o : SyncOperation) (w : World) :
  heap w !! l = Some o →
  if succeeds r then
    heap (settle r l w).2 = heap w ∧
    syncQueue (settle r l w).2 = without_id (id o) (heap w) (syncQueue w) ∧
    log (settle r l w).2 = log w ++ [Notify SYNC_SUCCESS l o]
  else
    heap (settle r l w).2 = <[l := incr_retryCount o]> (heap w) ∧
    if retryCount o + 1 <? maxRetries o then
      syncQueue (settle r l w).2 = syncQueue w ∧
      log (settle r l w).2 = log w ++ [Schedule (retryDelay (retryCount o + 1))]
    else
      syncQueue (settle r l w).2
        = without_id (id o) (<[l := incr_retryCount o]> (heap w)) (syncQueue w) ∧
      log (settle r l w).2 = log w ++ [Notify SYNC_FAILED l (incr_retryCount o)].
Proof.
  intros Hl. unfold settle. rewrite Hl.
  destruct (executeOperation_outcome o r (storage w)) as (result & db' & -> & ->).
  destruct (succeeds r); simpl; [done|].
  destruct (Z.ltb_spec (retryCount o + 1) (maxRetries o)).
  - destruct (Z.leb_spec (maxRetries o) (retryCount o + 1)); [lia|]. done.
  - destruct (Z.leb_spec (maxRetries o) (retryCount o + 1)); [|lia]. done.
Qed.

Lemma fetches_emit (e : Effect) (w : World) :
  fetches (emit e w)
  = fetches w ++ match e with Fetch l _ => [l] | _ => [] end.
Proof. unfold fetches. simpl. rewrite omap_app. by destruct e. Qed.

Lemma drain_cons (net : nat → Reply) (k : nat) (l : loc) (rest : list loc) (w : World) :
  (drain net k (l :: rest) w).2
  = (drain net (S k) rest (settle (net k) l (issue l w)).2).2.
Proof.
  simpl. destruct (settle (net k) l (issue l w)) as [res w1]. simpl.
  by destruct (drain net (S k) rest w1).
Qed.

(** A pass sends one request per entry of its sorted copy, in order. *)
Lemma drain_fetches (net : nat → Reply) (k : nat) (sorted : list loc) (w : World) :
  (∀ l, l ∈ sorted → is_Some (heap w !! l)) →
  fetches (drain net k sorted w).2 = fetches w ++ sorted.
Proof.
  revert k w. induction sorted as [|l rest IH]; intros k w Halloc.
  - simpl. by rewrite app_nil_r.
  - rewrite drain_cons.
    destruct (Halloc l) as [o Hl]; [left|].
    rewrite (issue_spec l o w Hl).
    assert (heap (emit (Fetch l o) w) !! l = Some o) as Hl' by done.
    destruct (settle_spec (net k) l o _ Hl') as [_ Hcases].
    set (w1 := (settle (net k) l (emit (Fetch l o) w)).2) in *.
    assert (fetches w1 = fetches w ++ [l]) as Hf.
    { unfold fetches in *.
      destruct Hcases as [(_ & _ & ->)|[(_ & _ & _ & ->)|(_ & _ & _ & ->)]];
        simpl; rewrite !omap_app; simpl; by rewrite app_nil_r. }
    assert (∀ l', is_Some (heap w !! l') → is_Some (heap w1 !! l')) as Hkeep.
    { intros l' Hsome.
      destruct Hcases as [(-> & _)|[(_ & -> & _)|(_ & -> & _)]]; simpl; try done;
        rewrite lookup_insert_is_Some; destruct (decide (l = l')); auto. }
    rewrite IH.
    + rewrite Hf. by rewrite <- app_assoc.
    + intros l' Hin. apply Hkeep, Halloc. by right.
Qed.

(** C6. A drain pass sends its requests in the order of the queue sorted
    by priority descending and, within a priority, timestamp ascending:
    the operations it attempts are those of the queue, each before all
    those that come after it in that order, so an operation is attempted
    before every operation of lower priority. *)
Theorem performSync_attempts_in_drain_order (net : nat → Reply) (w : World) :
  syncInProgress w = false →
  (∀ l, l ∈ syncQueue w → is_Some (heap w !! l)) →
  ∃ attempts,
    fetches (performSync net w).2 = fetches w ++ attempts ∧
    attempts = sortedQueue w ∧
    attempts ≡ₚ syncQueue w ∧
    StronglySorted (drained_before (heap w)) attempts ∧
    (∀ i j a b oa ob,
        attempts !! i = Some a → attempts !! j = Some b →
        heap w !! a = Some oa → heap w !! b = Some ob →
        higher_priority oa ob → (i < j)%nat).
Proof.
  intros Hidle Halloc. exists (sortedQueue w).
  pose proof (sortedQueue_sorted w Halloc) as Hsorted.
  split; [|split; [done|split; [apply sortedQueue_Permutation|split; [done|]]]].
  - unfold performSync. rewrite Hidle. simpl.
    destruct (length (syncQueue w) =? 0)%nat eqn:Hlen.
    + apply Nat.eqb_eq, nil_length_inv in Hlen.
      unfold sortedQueue. rewrite Hlen. simpl. by rewrite app_nil_r.
    + pose proof (drain_fetches net 0 (sortedQueue (set_syncInProgress true w))
                    (set_syncInProgress true w)) as Hf.
      destruct (drain net 0 (sortedQueue (set_syncInProgress true w))
                  (set_syncInProgress true w)) as [results w'].
      simpl in *. apply Hf. intros l Hin. apply Halloc.
      by rewrite <- (sortedQueue_Permutation w).
  - intros i j a b oa ob Hi Hj Ha Hb Hhigher.
    destruct (decide (i < j)%nat) as [|Hge]; [done|]. exfalso.
    apply higher_priority_order in Hhigher.
    destruct (decide (i = j)) as [->|Hne].
    + rewrite Hi in Hj. injection Hj as ->. rewrite Ha in Hb. injection Hb as ->. lia.
    + assert (drained_before (heap w) b a) as (ob' & oa' & Hb' & Ha' & Hord).
      { apply (StronglySorted_lookup_lt _ (sortedQueue w) j i); auto with lia. }
      rewrite Ha in Ha'. rewrite Hb in Hb'. simplify_eq.
      destruct Hord as [Hh|[Hsame _]].
      * apply higher_priority_order in Hh. lia.
      * apply same_priority_order in Hsame. lia.
Qed.

(** A ticket update, a low-priority preference update and a payment
    queued in that order: the payment goes first, the preference update
    last. *)
Lemma performSync_attempts_in_drain_order_witness :
  syncInProgress three_queued = false ∧
  (∀ l, l ∈ syncQueue three_queued → is_Some (heap three_queued !! l)) ∧
  syncQueue three_queued = [0%nat; 1%nat; 2%nat] ∧
  fetches (performSync (λ _, unavailable) three_queued).2 = [2%nat; 0%nat; 1%nat].
Proof.
  assert (∀ l, l ∈ syncQueue three_queued → is_Some (heap three_queued !! l)) as Halloc.
  { intros l Hin. vm_compute in Hin.
    repeat (apply elem_of_cons in Hin as [->|Hin]; [by eexists|]).
    by apply elem_of_nil in Hin. }
  split; [reflexivity|]. split; [exact Halloc|]. split; [reflexivity|].
  destruct (performSync_attempts_in_drain_order (λ _, unavailable) three_queued
              eq_refl Halloc) as (attempts & -> & -> & _).
  reflexivity.
Defined.

End DrainSteps.

(** * Passes that overlap *)

Section Overlap.
Import BackgroundSync Samples.

(** While the flag is set, a call of [performSync] returns at once:
    no request is sent, nothing changes. *)
Lemma performSync_enter_busy (m : Machine) :
  syncInProgress (world m) = true →
  step m CallForcSync = m ∧ step m TimerFires = m.
Proof.
  intros Hbusy. unfold step, performSync_enter. rewrite Hbusy. simpl.
  rewrite andb_false_r. by destruct (onLine (world m)).
Qed.

(** A pass that nothing interrupts is the pass [performSync] describes:
    the call, then one reply per queued operation. *)
Lemma run_replies (net : nat → Reply) (k : nat) (l : loc) (rest : list loc) (w : World) :
  run (mkMachine (issue l w) [l :: rest]) (replies net k (S (length rest)))
  = mkMachine (set_syncInProgress false (drain net k (l :: rest) w).2) [].
Proof.
  revert k l w. induction rest as [|l' rest IH]; intros k l w.
  - unfold replies, run. simpl. unfold performSync_resume. simpl.
    by destruct (settle (net k) l (issue l w)).
  - change (replies net k (S (length (l' :: rest))))
      with (Replies 0 (net k) :: replies net (S k) (S (length rest))).
    unfold run. simpl foldl at 1. fold (run (step (mkMachine (issue l w) [l :: l' :: rest])
                                        (Replies 0 (net k)))
                                   (replies net (S k) (S (length rest)))).
    rewrite drain_cons.
    change (step (mkMachine (issue l w) [l :: l' :: rest]) (Replies 0 (net k)))
      with (mkMachine (issue l' (settle (net k) l (issue l w)).2) [l' :: rest]).
    apply IH.
Qed.

Lemma run_replies_idle (net : nat → Reply) (k n : nat) (w : World) :
  foldl step (mkMachine w []) (replies net k n) = mkMachine w [].
Proof.
  revert k. induction n as [|n IH]; intros k; [done|].
  change (replies net k (S n)) with (Replies 0 (net k) :: replies net (S k) n).
  simpl. apply IH.
Qed.

Lemma run_single_pass (net : nat → Reply) (w : World) :
  onLine w = true →
  run (mkMachine w []) (CallForcSync :: replies net 0 (length (syncQueue w)))
  = mkMachine (performSync net w).2 [].
Proof.
  intros Hon. unfold run. simpl. rewrite Hon.
  unfold performSync_enter, performSync. simpl.
  destruct (syncInProgress w || (length (syncQueue w) =? 0)%nat) eqn:Hguard.
  - apply run_replies_idle.
  - apply orb_false_iff in Hguard as [Hidle Hlen].
    assert (length (sortedQueue (set_syncInProgress true w)) = length (syncQueue w))
      as Hsame
      by exact (Permutation_length (sortedQueue_Permutation (set_syncInProgress true w))).
    destruct (sortedQueue (set_syncInProgress true w)) as [|l rest] eqn:Hsorted.
    + simpl in Hsame. rewrite <- Hsame in Hlen. done.
    + rewrite <- Hsame. simpl length.
      pose proof (run_replies net 0 l rest (set_syncInProgress true w)) as Hrun.
      unfold run in Hrun. rewrite Hrun.
      by destruct (drain net 0 (l :: rest) (set_syncInProgress true w)).
Qed.

(** C3. A drain pass is waiting for the answer to its first request
    when the device goes offline, which clears the flag, and comes back
    online; the next call of [forcSync] then starts a second pass next
    to the first one, and that pass sends the same operation again. *)
Theorem second_drain_starts_beside_first :
  let m1 := run (mkMachine one_order []) [CallForcSync] in
  let m2 := run m1 [GoesOffline; GoesOnline; CallForcSync] in
  running m1 = [[0%nat]] ∧
  syncInProgress (world m1) = true ∧
  fetches (world m1) = [0%nat] ∧
  running m2 = [[0%nat]; [0%nat]] ∧
  fetches (world m2) = [0%nat; 0%nat].
Proof. vm_compute. done. Qed.

End Overlap.

(** * Removal from the queue *)

Section LogFacts.
Import BackgroundSync.
Implicit Types (l : loc) (lg : list Effect) (e : Effect) (q : list loc).








End LogFacts.

Section QueueFacts.
Import BackgroundSync.
Implicit Types (l : loc) (q : list loc) (h : gmap loc SyncOperation) (o : SyncOperation).

(** With distinct ids, filtering on the [id] of the object at [l] takes
    out [l] and nothing else. *)
Lemma without_id_removes q h h' l o :
  queue_ok q h → l ∈ q → h !! l = Some o →
  (∀ l', l' ≠ l → h' !! l' = h !! l') →
  (id <$> h' !! l = Some (id o)) →
  without_id (id o) h' q = filter (λ l', l' ≠ l) q.
Proof.
  intros (Hnd & Halloc & Hids) Hl Ho Hsame Hid. unfold without_id.
  apply filter_ext_Forall, Forall_forall. intros l' Hl'.
  destruct (decide (l' = l)) as [->|Hne]; [by rewrite Hid|].
  rewrite (Hsame l' Hne). split; [done|]. intros _ Heq.
  destruct (Halloc l' Hl') as (o' & Ho' & _). rewrite Ho' in Heq.
  injection Heq as Heq. by apply Hne, (Hids l' l o' o).
Qed.



End QueueFacts.

Section Removal.
Import Async OfflineStorage BackgroundSync Samples.










End Removal.

Section Passes.
Import Async OfflineStorage BackgroundSync Samples.







End Passes.

(** * Further properties of the Durable Store *)

Section ObjectStoreLaws.
Import OfflineStorage.
Context {R : Type}.
Implicit Types (k : IDBKey) (r : R) (s : ObjStore R).

Lemma store_get_put_other k k' r s :
  k' ≠ k → store_get k' (store_put k r s) = store_get k' s.
Proof.
  intros Hne. induction s as [|[k0 r0] s IH]; simpl.
  - by rewrite decide_False.
  - destruct (decide (k = k0)) as [->|Hk]; simpl.
    + by rewrite !decide_False.
    + destruct (key_ltb k k0); simpl.
      * by rewrite (decide_False (P := k' = k)).
      * by rewrite IH.
Qed.

Lemma store_get_delete k k' s :
  store_get k' (store_delete k s) = if decide (k' = k) then None else store_get k' s.
Proof.
  unfold store_delete. induction s as [|[k0 r0] s IH]; simpl.
  - by destruct (decide (k' = k)).
  - rewrite filter_cons. simpl. destruct (decide (k0 ≠ k)) as [Hk|Hk]; simpl.
    + rewrite IH. destruct (decide (k' = k0)) as [->|]; [|done].
      by rewrite decide_False.
    + apply dec_stable in Hk as ->. rewrite IH.
      by destruct (decide (k' = k)).
Qed.

Lemma store_put_put k r s : store_put k r (store_put k r s) = store_put k r s.
Proof.
  induction s as [|[k0 r0] s IH]; simpl.
  - by rewrite decide_True.
  - destruct (decide (k = k0)) as [->|Hk]; simpl.
    + by rewrite decide_True.
    + destruct (key_ltb k k0) eqn:Hlt; simpl.
      * by rewrite decide_True.
      * by rewrite decide_False, Hlt, IH.
Qed.

End ObjectStoreLaws.

Section KeyOrder.
Import OfflineStorage Samples.

(** Induction over keys, arrays of keys included. *)
Lemma IDBKey_nested_ind (P : IDBKey → Prop) :
  (∀ n, P (KeyNum n)) → (∀ s, P (KeyStr s)) →
  (∀ items, Forall P items → P (KeyArr items)) →
  ∀ k, P k.
Proof.
  intros Hnum Hstr Harr. fix go 1. intros [n|s|items]; [apply Hnum|apply Hstr|].
  apply Harr. induction items as [|k items IH]; constructor; [apply go|apply IH].
Qed.

Lemma key_ltb_irrefl (a : IDBKey) : key_ltb a a = false.
Proof.
  induction a as [n|s|items IH] using IDBKey_nested_ind; simpl.
  - apply Z.ltb_irrefl.
  - unfold String.ltb. destruct (String.compare s s) eqn:Hss; try done.
    pose proof (String.compare_antisym s s) as Hanti. rewrite Hss in Hanti. done.
  - induction IH as [|k items Hk _ IH]; [done|].
    rewrite Hk. by rewrite decide_True.
Qed.

Lemma key_ordered_NoDup {R : Type} (s : ObjStore R) : key_ordered s → NoDup s.*1.
Proof.
  induction 1 as [|[k r] s Hs IH Hk]; simpl; [apply NoDup_nil_2|].
  apply NoDup_cons. split; [|done].
  intros Hin. apply list_elem_of_fmap in Hin as ([k' r'] & -> & Hin).
  rewrite Forall_forall in Hk. specialize (Hk _ Hin). simpl in Hk.
  by rewrite key_ltb_irrefl in Hk.
Qed.

End KeyOrder.

Section Preferences.
Import Async OfflineStorage Samples.

(** X3. A preference reads back as the last value written under its
    key, writing one key leaves the others as they were, and a key that
    was never written reads as [null]. *)
Theorem setUserPreference_last_write_wins (now : Z) (k k' : string) (v : Json) (db : DB) :
  getUserPreference k (setUserPreference now k v db).2
    = (Ok v, (setUserPreference now k v db).2) ∧
  (k' ≠ k →
   (getUserPreference k' (setUserPreference now k v db).2).1
     = (getUserPreference k' db).1) ∧
  (store_get (KeyStr k') (user_preferences db) = None →
   getUserPreference k' db = (Ok JNull, db)).
Proof.
  unfold getUserPreference, setUserPreference, put_user_preference, gets, modify, bind, ret.
  simpl. split; [|split].
  - by rewrite store_get_put.
  - intros Hne. rewrite store_get_put_other; [done|congruence].
  - by intros ->.
Qed.

End Preferences.

Section PersistedQueue.
Import Async OfflineStorage BackgroundSync Samples.

Lemma store_put_new_length {R : Type} (k : IDBKey) (r : R) (s : ObjStore R) :
  k ∉ s.*1 → length (store_put k r s) = S (length s).
Proof.
  induction s as [|[k0 r0] s IH]; simpl; [done|].
  intros [Hne Hk]%not_elem_of_cons.
  rewrite decide_False by done.
  destruct (key_ltb k k0); simpl; [done|]. by rewrite IH.
Qed.

Lemma queue_keyed_fresh (db : DB) :
  queue_keyed db → KeyNum (failed_requests_next db) ∉ (failed_requests db).*1.
Proof.
  unfold queue_keyed. rewrite Forall_forall. intros Hk Hin.
  apply list_elem_of_fmap in Hin as (kr & Heq & Hin).
  destruct (Hk kr Hin) as (n & Hn & _ & Hlt). rewrite Hn in Heq.
  injection Heq as Heq. lia.
Qed.

Lemma queue_keyed_numeric (db : DB) :
  queue_keyed db →
  Forall (λ kr, ∃ m, kr.1 = KeyNum m) (failed_requests db) ∧
  Forall (λ kr, is_Some (fr_id kr.2)) (failed_requests db).
Proof.
  unfold queue_keyed. intros Hk. split; (eapply Forall_impl; [exact Hk|]);
    intros kr (n & Hn & Hid & _); [by exists n | by exists n].
Qed.

Lemma store_put_elem_of {R : Type} (k : IDBKey) (r : R) (s : ObjStore R) kr :
  kr ∈ store_put k r s → kr = (k, r) ∨ kr ∈ s.
Proof.
  induction s as [|[k0 r0] s IH]; simpl.
  - intros ->%list_elem_of_singleton. by left.
  - destruct (decide (k = k0)) as [->|Hne].
    + intros [->|Hin]%elem_of_cons; [by left|right; by right].
    + destruct (key_ltb k k0).
      * intros [->|Hin]%elem_of_cons; [by left|by right].
      * intros [->|Hin]%elem_of_cons; [right; left|].
        destruct (IH Hin) as [->|Hin']; [by left|right; by right].
Qed.

(** X4. On a queue store whose entries sit under the numbers the key
    generator gave them, [addFailedRequest] with a request that has no
    [id] adds one entry under a new key: the store grows by one, every
    earlier entry is still there under its key, and the store is again
    keyed that way. *)
Theorem addFailedRequest_adds_one_entry (request : FailedRequest) (db : DB) :
  queue_keyed db →
  fr_id request = None →
  queue_keyed (addFailedRequest request db).2 ∧
  length (failed_requests (addFailedRequest request db).2)
    = S (length (failed_requests db)) ∧
  (∀ k r, store_get k (failed_requests db) = Some r →
          store_get k (failed_requests (addFailedRequest request db).2) = Some r).
Proof.
  intros Hk Hid. pose proof (queue_keyed_fresh db Hk) as Hfresh.
  unfold addFailedRequest, put_failed_request. simpl. rewrite Hid. simpl.
  split; [|split].
  - unfold queue_keyed in *. simpl. rewrite Forall_forall in Hk |- *.
    intros kr [->|Hin]%store_put_elem_of; simpl.
    + eexists. split; [done|]. split; [done|]. lia.
    + destruct (Hk kr Hin) as (n & Hn & Hidn & Hlt). exists n.
      split; [done|]. split; [done|]. lia.
  - by apply store_put_new_length.
  - intros k r Hget. rewrite store_get_put_other; [done|].
    intros ->. apply store_get_Some in Hget. apply Hfresh.
    apply list_elem_of_fmap. by exists (KeyNum (failed_requests_next db), r).
Qed.

(** The store after one order creation, and a second request added. *)
Lemma addFailedRequest_adds_one_entry_witness :
  queue_keyed (storage one_order) ∧
  fr_id (mkFailedRequest None "/api/payments" "POST" [] None 150 2 5) = None ∧
  length (failed_requests
            (addFailedRequest (mkFailedRequest None "/api/payments" "POST" [] None 150 2 5)
                              (storage one_order)).2) = 2%nat.
Proof.
  assert (queue_keyed (storage one_order)) as Hk.
  { vm_compute. repeat constructor. exists 1. repeat split; reflexivity. }
  split; [exact Hk|]. split; [reflexivity|].
  destruct (addFailedRequest_adds_one_entry
              (mkFailedRequest None "/api/payments" "POST" [] None 150 2 5)
              (storage one_order) Hk eq_refl) as (_ & -> & _).
  reflexivity.
Defined.

(** X5. The second loop of [clearExpiredCache] removes nothing: on a
    queue store keyed by the generated numbers the sweep resolves and
    every queue entry, however old and however often retried, is still
    stored afterwards. *)
Theorem clearExpiredCache_leaves_queue (now : Z) (maxAge : option Z) (db : DB) :
  queue_keyed db →
  (clearExpiredCache now maxAge db).1 = Ok tt ∧
  failed_requests (clearExpiredCache now maxAge db).2 = failed_requests db.
Proof.
  intros Hk. destruct (queue_keyed_numeric db Hk) as [Hnum Hids].
  by apply clearExpiredCache_keeps_queue_entries.
Qed.

(** A request stored at time 100 survives a sweep a year later. *)
Lemma clearExpiredCache_leaves_queue_witness :
  queue_keyed (storage one_order) ∧
  length (failed_requests (clearExpiredCache (365 * day) None (storage one_order)).2)
    = 1%nat.
Proof.
  assert (queue_keyed (storage one_order)) as Hk.
  { vm_compute. repeat constructor. exists 1. repeat split; reflexivity. }
  split; [exact Hk|].
  destruct (clearExpiredCache_leaves_queue (365 * day) None (storage one_order) Hk)
    as [_ ->].
  reflexivity.
Defined.

End PersistedQueue.

(** * The persisted queue during drain passes *)

Section QueueFrame.
Import Async OfflineStorage BackgroundSync Samples.

Lemma keeps_queue_ret {A} (a : A) : keeps_queue (ret a).
Proof. done. Qed.

Lemma keeps_queue_throw {A} (e : string) : keeps_queue (throw (A := A) e).
Proof. done. Qed.

Lemma keeps_queue_gets {A} (f : DB → A) : keeps_queue (gets f).
Proof. done. Qed.

Lemma keeps_queue_bind {A B} (m : M A) (f : A → M B) :
  keeps_queue m → (∀ a, keeps_queue (f a)) → keeps_queue (bind m f).
Proof.
  intros Hm Hf db. unfold bind. destruct (Hm db) as [Hq Hn].
  destruct (m db) as [[a|e] db1]; simpl in *; [|done].
  destruct (Hf a db1) as [H1 H2]. split; congruence.
Qed.

Lemma keeps_queue_try_catch {A} (m : M A) (h : string → M A) :
  keeps_queue m → (∀ e, keeps_queue (h e)) → keeps_queue (try_catch m h).
Proof.
  intros Hm Hh db. unfold try_catch. destruct (Hm db) as [Hq Hn].
  destruct (m db) as [[a|e] db1]; simpl in *; [done|].
  destruct (Hh e db1) as [H1 H2]. split; congruence.
Qed.

Lemma keeps_queue_for_each {A} (l : list A) (f : A → M unit) :
  (∀ a, keeps_queue (f a)) → keeps_queue (for_each l f).
Proof.
  intros Hf. induction l as [|a l IH]; simpl; [apply keeps_queue_ret|].
  apply keeps_queue_bind; auto.
Qed.

Lemma keeps_queue_put_order (o : Json) : keeps_queue (put_order o).
Proof.
  unfold put_order. destruct (key_path_id o) as [k|]; [|done].
  intros db. by destruct (orderNumber_taken k o (orders db)).
Qed.

Lemma keeps_queue_put_ticket (t : Json) : keeps_queue (put_ticket t).
Proof. unfold put_ticket. by destruct (key_path_id t). Qed.

Lemma keeps_queue_put_cart_item (c : Json) : keeps_queue (put_cart_item c).
Proof. unfold put_cart_item. by destruct (key_path_id c). Qed.

Lemma keeps_queue_get_prop (k : string) (j : Json) : keeps_queue (get_prop k j).
Proof. by destruct j. Qed.

Lemma keeps_queue_iterate (j : Json) : keeps_queue (iterate j).
Proof. by destruct j. Qed.

Lemma keeps_queue_push_payment (response order : Json) :
  keeps_queue (push_payment response order).
Proof.
  unfold push_payment. destruct (Js.prop "payments" order) as [[]|]; try done;
    by destruct (Js.truthy _).
Qed.

Lemma keeps_queue_handleSuccessfulOperation now rand operation response :
  keeps_queue (handleSuccessfulOperation now rand operation response).
Proof.
  unfold handleSuccessfulOperation.
  apply keeps_queue_try_catch; [|intros; apply keeps_queue_ret].
  destruct (type operation).
  - destruct (decide _); [|apply keeps_queue_ret].
    apply keeps_queue_bind; [apply keeps_queue_get_prop|]. intros [order|]; [|done].
    destruct (Js.truthy order); [|done].
    apply keeps_queue_bind; [apply keeps_queue_put_order|]. intros _.
    apply keeps_queue_bind; [apply keeps_queue_get_prop|]. intros [tickets|]; [|done].
    destruct (Js.truthy tickets); [|done].
    apply keeps_queue_bind; [apply keeps_queue_iterate|]. intros l.
    apply keeps_queue_for_each. intros t. apply keeps_queue_put_ticket.
  - apply keeps_queue_bind; [apply keeps_queue_get_prop|]. intros [orderId|]; [|done].
    destruct (Js.truthy orderId); [|done].
    destruct (key_of_json orderId); [|done].
    apply keeps_queue_bind; [done|]. intros [order|]; [|done].
    apply keeps_queue_bind; [apply keeps_queue_push_payment|]. intros order'.
    apply keeps_queue_put_order.
  - done.
  - destruct (decide _); [|done]. apply keeps_queue_put_cart_item.
  - destruct (_ && _); [|done]. apply keeps_queue_for_each. by intros kv.
Qed.

Lemma keeps_queue_executeOperation operation r :
  keeps_queue (executeOperation operation r).
Proof.
  unfold executeOperation.
  apply keeps_queue_try_catch; [|intros; apply keeps_queue_ret].
  destruct (outcome r) as [|status statusText [responseData|]]; try done;
    destruct (negb (ok status)); try done.
  apply keeps_queue_bind; [apply keeps_queue_handleSuccessfulOperation|done].
Qed.

(** Removing or updating the stored copy of an operation goes through
    the string form of its key and finds nothing. *)
Lemma pending_operation_untouched (operation : SyncOperation) (db : DB) :
  queue_keyed db →
  (removePendingOperation operation db).2 = db ∧
  (updatePendingOperation operation db).2 = db.
Proof.
  intros Hk. destruct (queue_keyed_numeric db Hk) as [Hnum _].
  unfold removePendingOperation, updatePendingOperation, try_catch, bind,
    getFailedRequests, gets.
  destruct (truthy_id _) as [n|]; [|done].
  destruct (string_key_misses_numeric_store n db Hnum) as [-> Hupd].
  by rewrite Hupd.
Qed.

Lemma queue_keyed_same (db db' : DB) :
  failed_requests db' = failed_requests db →
  failed_requests_next db' = failed_requests_next db →
  queue_keyed db → queue_keyed db'.
Proof. unfold queue_keyed. by intros -> ->. Qed.

Lemma settle_keeps_queue (r : Reply) (l : loc) (w : World) :
  queue_keyed (storage w) →
  failed_requests (storage (settle r l w).2) = failed_requests (storage w) ∧
  failed_requests_next (storage (settle r l w).2) = failed_requests_next (storage w).
Proof.
  intros Hk. unfold settle. destruct (heap w !! l) as [operation|]; [|done].
  destruct (keeps_queue_executeOperation operation r (storage w)) as [Hq Hn].
  destruct (executeOperation operation r (storage w)) as [[result|e] db]; simpl in *;
    [|done].
  pose proof (queue_keyed_same _ _ Hq Hn Hk) as Hk'.
  destruct (success result); simpl.
  - unfold run_storage. simpl.
    destruct (pending_operation_untouched operation db Hk') as [-> _]. done.
  - destruct (_ <=? _); simpl; unfold run_storage; simpl.
    + destruct (pending_operation_untouched (incr_retryCount operation) db Hk')
        as [-> _]. done.
    + destruct (pending_operation_untouched (incr_retryCount operation) db Hk')
        as [_ ->]. done.
Qed.

Lemma drain_keeps_queue (net : nat → Reply) (k : nat) (sorted : list loc) (w : World) :
  queue_keyed (storage w) →
  failed_requests (storage (drain net k sorted w).2) = failed_requests (storage w) ∧
  failed_requests_next (storage (drain net k sorted w).2)
    = failed_requests_next (storage w).
Proof.
  revert k w. induction sorted as [|l rest IH]; intros k w Hk; [done|].
  rewrite drain_cons.
  assert (storage (issue l w) = storage w) as Hissue
    by (unfold issue; by destruct (heap w !! l)).
  destruct (settle_keeps_queue (net k) l (issue l w)) as [Hq Hn];
    [by rewrite Hissue|]. rewrite Hissue in Hq, Hn.
  destruct (IH (S k) (settle (net k) l (issue l w)).2) as [Hq' Hn'];
    [by apply (queue_keyed_same (storage w))|].
  split; congruence.
Qed.

Lemma performSync_keeps_queue (net : nat → Reply) (w : World) :
  queue_keyed (storage w) →
  failed_requests (storage (performSync net w).2) = failed_requests (storage w) ∧
  failed_requests_next (storage (performSync net w).2) = failed_requests_next (storage w).
Proof.
  intros Hk. unfold performSync. destruct (_ || _); [done|].
  pose proof (drain_keeps_queue net 0 (sortedQueue (set_syncInProgress true w))
                (set_syncInProgress true w) Hk) as Hd.
  by destruct (drain net 0 (sortedQueue (set_syncInProgress true w))
                 (set_syncInProgress true w)).
Qed.

(** X6. Drain passes never write to the persisted queue: whatever the
    server answers, after any number of passes the store
    [failed-requests] holds exactly the entries it held before - the
    retry counts are not written back, and the entries of operations
    that were synced or given up are not removed. *)
Theorem passes_leave_persisted_queue (nets : list (nat → Reply)) (w : World) :
  queue_keyed (storage w) →
  failed_requests (storage (passes nets w)) = failed_requests (storage w).
Proof.
  revert w. induction nets as [|net nets IH]; intros w Hk; [done|].
  simpl. destruct (performSync_keeps_queue net w Hk) as [Hq Hn].
  rewrite IH; [done|]. by apply (queue_keyed_same (storage w)).
Qed.

(** The order creation is synced by the first pass, and its entry is
    still stored. *)
Lemma passes_leave_persisted_queue_witness :
  queue_keyed (storage one_order) ∧
  syncQueue (passes [λ _, created] one_order) = [] ∧
  (failed_requests (storage (passes [λ _, created] one_order))).*1 = [KeyNum 1].
Proof.
  assert (queue_keyed (storage one_order)) as Hk.
  { vm_compute. repeat constructor. exists 1. repeat split; reflexivity. }
  split; [exact Hk|]. split; [reflexivity|].
  rewrite (passes_leave_persisted_queue [λ _, created] one_order Hk).
  reflexivity.
Defined.

End QueueFrame.

(** * Cached entities and the offline cart *)

Section JsonFields.

Lemma assoc_set_field (k k' : string) (v : Json) (fs : list (string * Json)) :
  Js.assoc k' (Js.set_field k v fs)
  = if String.eqb k' k then Some v else Js.assoc k' fs.
Proof.
  induction fs as [|[k0 v0] fs IH]; simpl.
  - by destruct (String.eqb k' k).
  - destruct (String.eqb_spec k k0) as [<-|Hne]; simpl.
    + by destruct (String.eqb k' k).
    + rewrite IH. destruct (String.eqb_spec k' k0) as [->|]; [|done].
      destruct (String.eqb_spec k0 k) as [->|]; done.
Qed.

End JsonFields.

Section Caches.
Import Async OfflineStorage Samples.

(** X7. [markForSync] on a cached event sets its [syncStatus] to
    [pending] and changes nothing else, neither in the event nor in the
    rest of the store - the event then shows among the pending items -;
    caching the event again afterwards, as a re-fetch does, puts it
    back to [synced] with a new [cachedAt]. *)
Theorem markForSync_until_next_cacheEvent
    (i : string) (e : StoredEvent) (now : Z) (db : DB) :
  store_get (KeyStr i) (events db) = Some e →
  id e = i →
  store_get (KeyStr i) (events (markForSync i db).2)
    = Some (mkStoredEvent (id e) (title e) (description e) (startDate e) (endDate e)
              (venue e) (category e) (ticketTypes e) (imageUrl e) (status e)
              (cachedAt e) pending) ∧
  (∃ items, getPendingSyncItems (markForSync i db).2
              = (Ok items, (markForSync i db).2) ∧
            mkStoredEvent (id e) (title e) (description e) (startDate e) (endDate e)
              (venue e) (category e) (ticketTypes e) (imageUrl e) (status e)
              (cachedAt e) pending ∈ items) ∧
  (∀ k, k ≠ KeyStr i →
        store_get k (events (markForSync i db).2) = store_get k (events db)) ∧
  (orders (markForSync i db).2 = orders db ∧
   tickets (markForSync i db).2 = tickets db ∧
   failed_requests (markForSync i db).2 = failed_requests db ∧
   user_preferences (markForSync i db).2 = user_preferences db ∧
   cart_items (markForSync i db).2 = cart_items db) ∧
  store_get (KeyStr i) (events (cacheEvent now e (markForSync i db).2).2)
    = Some (mkStoredEvent (id e) (title e) (description e) (startDate e) (endDate e)
              (venue e) (category e) (ticketTypes e) (imageUrl e) (status e)
              now synced).
Proof.
  intros Hget Hid. unfold markForSync, get_event, gets, bind. rewrite Hget.
  unfold put_event, cacheEvent, put_event, modify. simpl. rewrite Hid.
  split; [apply store_get_put|]. split; [|split; [|split]].
  - eexists. split; [reflexivity|].
    apply list_elem_of_filter. split; [done|].
    apply list_elem_of_fmap. eexists (_, _). split; [reflexivity|].
    apply store_get_Some, store_get_put.
  - intros k Hne. by apply store_get_put_other.
  - done.
  - apply store_get_put.
Qed.

Lemma markForSync_until_next_cacheEvent_witness :
  store_get (KeyStr "evt-2") (events db_two_events) = Some festival ∧
  id festival = "evt-2" ∧
  (syncStatus <$> store_get (KeyStr "evt-2") (events (markForSync "evt-2" db_two_events).2))
    = Some pending.
Proof.
  split; [reflexivity|]. split; [reflexivity|].
  destruct (markForSync_until_next_cacheEvent "evt-2" festival 0 db_two_events
              eq_refl eq_refl) as (Hget & _).
  by rewrite Hget.
Defined.

(** X8. [addToOfflineCart] always resolves, whatever it is given: the
    item is stored under a generated [cart-...] id that replaces any
    [id] it came with, stamped with the time and [syncStatus: pending],
    its other fields kept; [clearOfflineCart] then empties the cart. *)
Theorem addToOfflineCart_stores_pending_item
    (now : Z) (rand : string) (item : Json) (db : DB) :
  ∃ stored,
    (addToOfflineCart now rand item db).1 = Ok tt ∧
    store_get (KeyStr ("cart-" +:+ toString now +:+ "-" +:+ rand))
              (cart_items (addToOfflineCart now rand item db).2) = Some (JObj stored) ∧
    Js.assoc "id" stored = Some (JStr ("cart-" +:+ toString now +:+ "-" +:+ rand)) ∧
    Js.assoc "timestamp" stored = Some (JNum now) ∧
    Js.assoc "syncStatus" stored = Some (JStr "pending") ∧
    (∀ k, k ≠ "id" → k ≠ "timestamp" → k ≠ "syncStatus" →
          Js.assoc k stored = Js.assoc k (Js.own_fields item)) ∧
    getOfflineCart (clearOfflineCart (addToOfflineCart now rand item db).2).2
      = (Ok [], (clearOfflineCart (addToOfflineCart now rand item db).2).2).
Proof.
  set (cartId := "cart-" +:+ toString now +:+ "-" +:+ rand).
  exists (Js.set_field "syncStatus" (JStr "pending")
            (Js.set_field "timestamp" (JNum now)
               (Js.set_field "id" (JStr cartId) (Js.own_fields item)))).
  assert (addToOfflineCart now rand item db
          = (Ok tt, set_cart_items
                      (store_put (KeyStr cartId)
                         (JObj (Js.set_field "syncStatus" (JStr "pending")
                                  (Js.set_field "timestamp" (JNum now)
                                     (Js.set_field "id" (JStr cartId)
                                        (Js.own_fields item)))))) db)) as ->.
  { unfold addToOfflineCart, put_cart_item, key_path_id. fold cartId.
    cbn [Js.prop]. rewrite 3!assoc_set_field. cbn [String.eqb Ascii.eqb Bool.eqb].
    reflexivity. }
  cbn [fst snd cart_items set_cart_items].
  split; [done|]. split; [apply store_get_put|].
  rewrite 3!assoc_set_field. cbn [String.eqb Ascii.eqb Bool.eqb].
  split; [done|].
  rewrite 2!assoc_set_field. cbn [String.eqb Ascii.eqb Bool.eqb].
  split; [done|].
  rewrite assoc_set_field. cbn [String.eqb Ascii.eqb Bool.eqb].
  split; [done|]. split; [|done].
  intros k H1 H2 H3. rewrite 3!assoc_set_field.
  by rewrite !(proj2 (String.eqb_neq _ _)).
Qed.

Lemma key_path_id_stamp_synced (now : Z) (x : Json) :
  key_path_id (stamp_synced now x) = Js.assoc "id" (Js.own_fields x) ≫= key_of_json.
Proof.
  unfold key_path_id, stamp_synced. cbn [Js.prop].
  by rewrite 2!assoc_set_field.
Qed.

Lemma orderNumber_key_stamp_synced (now : Z) (x : Json) :
  orderNumber_key (stamp_synced now x)
  = Js.assoc "orderNumber" (Js.own_fields x) ≫= key_of_json.
Proof.
  unfold orderNumber_key, stamp_synced. cbn [Js.prop].
  by rewrite 2!assoc_set_field.
Qed.

(** What the unique index looks for. *)
Lemma orderNumber_taken_spec (k : IDBKey) (o : Json) (s : ObjStore Json) :
  orderNumber_taken k o s = true ↔
  ∃ k' o' n, ((k', o') ∈ s) ∧ (k' ≠ k) ∧
             (orderNumber_key o = Some n) ∧ (orderNumber_key o' = Some n).
Proof.
  unfold orderNumber_taken. destruct (orderNumber_key o) as [n|];
    [|split; [done|by intros (k' & o' & n' & _ & _ & Hn & _)]].
  rewrite existsb_exists. split.
  - intros ([k' o'] & Hin & Hboth). apply andb_true_iff in Hboth as [Hk Hn].
    apply negb_true_iff, bool_decide_eq_false in Hk. apply bool_decide_eq_true in Hn.
    simpl in *. exists k', o', n. by rewrite list_elem_of_In.
  - intros (k' & o' & n' & Hin & Hk & [= <-] & Hn). exists (k', o').
    split; [by rewrite <- list_elem_of_In|].
    apply andb_true_iff. split.
    + apply negb_true_iff. by apply bool_decide_eq_false.
    + by apply bool_decide_eq_true.
Qed.

(** The three ways [cacheOrder] can end. *)
Lemma cacheOrder_cases (now : Z) (order : Json) (db : DB) :
  cacheOrder now order db
  = match key_path_id (stamp_synced now order) with
    | None => (Throw "DataError", db)
    | Some k =>
        if orderNumber_taken k (stamp_synced now order) (orders db)
        then (Throw "ConstraintError", db)
        else (Ok tt, set_orders (store_put k (stamp_synced now order)) db)
    end.
Proof.
  unfold cacheOrder, put_order.
  destruct (key_path_id (stamp_synced now order)) as [k|]; [|done].
  by destruct (orderNumber_taken k (stamp_synced now order) (orders db)).
Qed.

(** X9. [cacheOrder] rejects, and stores nothing, in two cases: with a
    [DataError] when the order carries no [id] that is a valid key (a
    number, a string, or an array of valid keys), and with a
    [ConstraintError] when another order, stored under a different
    [id], has the same [orderNumber] (the store has a unique index on
    it).  Otherwise it resolves: the order is stored under its [id]
    with [cachedAt] set to the current time and [syncStatus] to
    [synced], its other fields kept, the other stored orders
    untouched. *)
Theorem cacheOrder_needs_id (now : Z) (order : Json) (db : DB) :
  match Js.assoc "id" (Js.own_fields order) ≫= key_of_json with
  | None => cacheOrder now order db = (Throw "DataError", db)
  | Some k =>
      if orderNumber_taken k (stamp_synced now order) (orders db)
      then cacheOrder now order db = (Throw "ConstraintError", db)
      else
        ∃ stored,
          (cacheOrder now order db).1 = Ok tt ∧
          store_get k (orders (cacheOrder now order db).2) = Some (JObj stored) ∧
          Js.assoc "cachedAt" stored = Some (JNum now) ∧
          Js.assoc "syncStatus" stored = Some (JStr "synced") ∧
          (∀ f, f ≠ "cachedAt" → f ≠ "syncStatus" →
                Js.assoc f stored = Js.assoc f (Js.own_fields order)) ∧
          (∀ k', k' ≠ k →
                 store_get k' (orders (cacheOrder now order db).2)
                 = store_get k' (orders db))
  end.
Proof.
  rewrite cacheOrder_cases, key_path_id_stamp_synced.
  destruct (Js.assoc "id" (Js.own_fields order) ≫= key_of_json) as [k|]; [|done].
  destruct (orderNumber_taken k (stamp_synced now order) (orders db)); [done|].
  exists (Js.set_field "syncStatus" (JStr "synced")
            (Js.set_field "cachedAt" (JNum now) (Js.own_fields order))).
  cbn [fst snd orders set_orders].
  split; [done|]. split; [apply store_get_put|].
  rewrite 2!assoc_set_field. cbn [String.eqb Ascii.eqb Bool.eqb].
  split; [done|].
  rewrite assoc_set_field. cbn [String.eqb Ascii.eqb Bool.eqb].
  split; [done|]. split.
  - intros f H1 H2. rewrite 2!assoc_set_field.
    by rewrite !(proj2 (String.eqb_neq _ _)).
  - intros k' Hne. by apply store_get_put_other.
Qed.

End Caches.

(** * Further properties of the Sync Queue Manager *)

Section SuccessHandler.
Import Async OfflineStorage BackgroundSync Samples.

Lemma for_each_app {St A} (l1 l2 : list A) (f : A → Async.M St unit) (st : St) :
  for_each (l1 ++ l2) f st
  = match for_each l1 f st with
    | (Ok _, st') => for_each l2 f st'
    | (Throw e, st') => (Throw e, st')
    end.
Proof.
  revert st. induction l1 as [|x l1 IH]; intros st; simpl; [done|].
  unfold bind. destruct (f x st) as [[[]|e] st1]; [apply IH|done].
Qed.

Lemma for_each_cacheTicket_resolves (now : Z) (ts : list Json) (db : DB) :
  Forall (λ t, is_Some (key_path_id (stamp_synced now t))) ts →
  (for_each ts (cacheTicket now) db).1 = Ok tt.
Proof.
  intros Hts. revert db. induction Hts as [|t ts [k Hk] _ IH]; intros db; [done|].
  simpl. unfold bind, cacheTicket at 1, put_ticket. rewrite Hk. simpl. apply IH.
Qed.

Lemma get_prop_not_null (k : string) (j v : Json) :
  Js.prop k j = Some v → get_prop k j = ret (Some v).
Proof. intros H. destruct j; try done. simpl in *. by rewrite H. Qed.

(** The answer to an order creation whose order and tickets can be
    read: the order is cached, then the tickets one by one, and whatever
    rejects on the way ends the handler quietly. *)
Lemma handleSuccessfulOperation_order_tickets
    (now : Z) (rand : string) (operation : SyncOperation)
    (response order : Json) (ticketList : list Json) (k : IDBKey) (db : DB) :
  type operation = Order →
  action operation = Create →
  Js.prop "order" response = Some order →
  Js.truthy order = true →
  key_path_id (stamp_synced now order) = Some k →
  Js.prop "tickets" response = Some (JArr ticketList) →
  handleSuccessfulOperation now rand operation response db
  = (Ok tt,
     if orderNumber_taken k (stamp_synced now order) (orders db) then db
     else (for_each ticketList (cacheTicket now)
             (set_orders (store_put k (stamp_synced now order)) db)).2).
Proof.
  intros Htype Haction Horder Htruthy Hk Htickets.
  unfold handleSuccessfulOperation, try_catch. rewrite Htype, Haction.
  rewrite decide_True by done.
  rewrite (get_prop_not_null _ _ _ Horder), (get_prop_not_null _ _ _ Htickets).
  unfold bind at 1. unfold ret at 1. rewrite Htruthy.
  unfold bind at 1. rewrite cacheOrder_cases, Hk.
  destruct (orderNumber_taken k (stamp_synced now order) (orders db)); [done|].
  unfold bind at 1. unfold ret at 1. cbn [Js.truthy iterate].
  unfold bind at 1. unfold ret at 1.
  by destruct (for_each ticketList (cacheTicket now) _) as [[[]|e] db1].
Qed.

(** X10. When the answer to an order creation lists a ticket that
    carries no [id] that is a valid key, the loop over the tickets stops
    there without any error surfacing: the order and the tickets listed
    before it are cached, the tickets listed after it are not.  When
    the unique index refuses the order itself (another cached order has
    its [orderNumber]), nothing is cached at all, again silently. *)
Theorem handleSuccessfulOperation_stops_at_bad_ticket
    (now : Z) (rand : string) (operation : SyncOperation)
    (response order bad : Json) (good rest : list Json) (k : IDBKey) (db : DB) :
  type operation = Order →
  action operation = Create →
  Js.prop "order" response = Some order →
  Js.truthy order = true →
  key_path_id (stamp_synced now order) = Some k →
  Js.prop "tickets" response = Some (JArr (good ++ bad :: rest)) →
  Forall (λ t, is_Some (key_path_id (stamp_synced now t))) good →
  key_path_id (stamp_synced now bad) = None →
  handleSuccessfulOperation now rand operation response db
  = (Ok tt,
     if orderNumber_taken k (stamp_synced now order) (orders db) then db
     else (for_each good (cacheTicket now)
             (set_orders (store_put k (stamp_synced now order)) db)).2).
Proof.
  intros Htype Haction Horder Htruthy Hk Htickets Hgood Hbad.
  rewrite (handleSuccessfulOperation_order_tickets now rand operation response order
             (good ++ bad :: rest) k db) by done.
  destruct (orderNumber_taken k (stamp_synced now order) (orders db)); [done|].
  rewrite for_each_app.
  pose proof (for_each_cacheTicket_resolves now good
                (set_orders (store_put k (stamp_synced now order)) db) Hgood) as Hok.
  destruct (for_each good (cacheTicket now) _) as [[[]|e] db1]; [|done].
  cbn [for_each snd]. unfold bind, cacheTicket at 1, put_ticket. by rewrite Hbad.
Qed.

Lemma handleSuccessfulOperation_stops_at_bad_ticket_witness :
  let response :=
    JObj [("order", JObj [("id", JStr "ord-1")]);
          ("tickets", JArr ([JObj [("id", JStr "tic-1")]]
                              ++ JObj [("seat", JStr "A1")]
                              :: [JObj [("id", JStr "tic-3")]]))] in
  let operation :=
    mkSyncOperation "sync-1-a" Order Create JNull "/api/orders/create" "POST"
                    High 0 5 100 None in
  type operation = Order ∧ action operation = Create ∧
  (tickets (handleSuccessfulOperation 500 "a" operation response empty_db).2).*1
    = [KeyStr "tic-1"].
Proof.
  cbv zeta. split; [reflexivity|]. split; [reflexivity|].
  rewrite (handleSuccessfulOperation_stops_at_bad_ticket 500 "a" _ _
             (JObj [("id", JStr "ord-1")]) (JObj [("seat", JStr "A1")])
             [JObj [("id", JStr "tic-1")]] [JObj [("id", JStr "tic-3")]]
             (KeyStr "ord-1") empty_db);
    try reflexivity.
  repeat constructor. by eexists.
Defined.

(** X11. An attempt succeeds exactly when the server answers with a 2xx
    status and a body that parses as JSON; every other outcome - a
    network error, another status, a 2xx answer without a JSON body -
    is a failure that leaves the Durable Store as it was. *)
Theorem executeOperation_success_iff (operation : SyncOperation) (r : Reply) (db : DB) :
  ∃ result db',
    executeOperation operation r db = (Ok result, db') ∧
    (success result = true ↔
       ∃ status statusText json,
         outcome r = Http status statusText (Some json) ∧ ok status = true) ∧
    (success result = false → db' = db ∧ is_Some (error result)).
Proof.
  unfold executeOperation, try_catch.
  destruct (outcome r) as [message|status statusText [json|]] eqn:Hout; simpl.
  - eexists _, _. split; [done|]. split; [|done].
    split; [done|]. by intros (? & ? & ? & ? & _).
  - destruct (ok status) eqn:Hok; simpl.
    + unfold bind.
      pose proof (handleSuccessfulOperation_resolves (now r) (rand r) operation json db)
        as Hres.
      destruct (handleSuccessfulOperation (now r) (rand r) operation json db)
        as [[[]|e] db']; [|done].
      eexists _, _. split; [done|]. split; [|done].
      split; [|done]. intros _. by exists status, statusText, json.
    + eexists _, _. split; [done|]. split; [|done].
      split; [done|]. intros (? & ? & ? & [= <- _ _] & Hok'). congruence.
  - destruct (negb (ok status)); simpl; eexists _, _; (split; [done|]);
      (split; [|done]); (split; [done|]); by intros (? & ? & ? & ? & _).
Qed.

(** X12. The attempt of a queued operation that succeeds takes exactly
    that operation out of the queue, leaves every operation object as
    it was ([retryCount] included), dispatches [SYNC_SUCCESS] and sets
    no timer. *)
Theorem settle_success_removes_operation
    (r : Reply) (l : loc) (o : SyncOperation) (w : World)
    (status : Z) (statusText : string) (json : Json) :
  queue_ok (syncQueue w) (heap w) →
  l ∈ syncQueue w →
  heap w !! l = Some o →
  outcome r = Http status statusText (Some json) →
  ok status = true →
  syncQueue (settle r l w).2 = filter (λ l', l' ≠ l) (syncQueue w) ∧
  heap (settle r l w).2 = heap w ∧
  log (settle r l w).2 = log w ++ [Notify SYNC_SUCCESS l o] ∧
  (settle r l w).1 = [mkSyncResult true o None (Some json)].
Proof.
  intros Hq Hl Ho Hout Hok. unfold settle. rewrite Ho.
  unfold executeOperation, try_catch. rewrite Hout, Hok. simpl. unfold bind.
  pose proof (handleSuccessfulOperation_resolves (now r) (rand r) o json (storage w))
    as Hres.
  destruct (handleSuccessfulOperation (now r) (rand r) o json (storage w))
    as [[[]|e] db']; [|done].
  simpl. split; [|done].
  apply (without_id_removes _ (heap w)); try done. by rewrite Ho.
Qed.

Lemma settle_success_removes_operation_witness :
  queue_ok (syncQueue one_order) (heap one_order) ∧
  0%nat ∈ syncQueue one_order ∧
  ok 201 = true ∧
  syncQueue (settle created 0%nat one_order).2 = [].
Proof.
  assert (queue_ok (syncQueue one_order) (heap one_order)) as Hq.
  { split; [|split].
    - vm_compute. apply NoDup_singleton.
    - intros l Hl. vm_compute in Hl. apply list_elem_of_singleton in Hl as ->.
      eexists. split; [vm_compute; reflexivity|simpl; lia].
    - intros l1 l2 o1 o2 Hl1 Hl2 _ _ _. vm_compute in Hl1, Hl2.
      apply list_elem_of_singleton in Hl1 as ->.
      by apply list_elem_of_singleton in Hl2 as ->. }
  split; [exact Hq|]. split; [left|]. split; [reflexivity|].
  assert (∃ o, heap one_order !! 0%nat = Some o) as [o Ho]
    by (eexists; vm_compute; reflexivity).
  destruct (settle_success_removes_operation created 0%nat o one_order 201 "Created"
              _ Hq (list_elem_of_here _ _) Ho eq_refl eq_refl) as (-> & _).
  reflexivity.
Defined.

End SuccessHandler.

Section PaymentsAndEnqueue.
Import Async OfflineStorage BackgroundSync Samples.

Lemma orderNumber_taken_same_number (k : IDBKey) (o o' : Json) (s : ObjStore Json) :
  orderNumber_key o' = orderNumber_key o →
  orderNumber_taken k o' s = orderNumber_taken k o s.
Proof. unfold orderNumber_taken. by intros ->. Qed.

(** X13. The answer to a payment is merged into the cached order it
    names: when that order is not cached, nothing is written and the
    payment is not recorded locally; when it is cached with a list of
    payments, the answer is appended to the list and the order is
    stored again as [synced] with a new [cachedAt].  (Should another
    cached order hold the same [orderNumber] - which the unique index
    rules out for a store it has guarded all along - the write is
    refused and nothing changes.) *)
Theorem handleSuccessfulOperation_payment
    (now : Z) (rand : string) (operation : SyncOperation)
    (response orderId : Json) (k : IDBKey) (db : DB) :
  type operation = Payment →
  Js.prop "orderId" response = Some orderId →
  Js.truthy orderId = true →
  key_of_json orderId = Some k →
  match store_get k (orders db) with
  | None => handleSuccessfulOperation now rand operation response db = (Ok tt, db)
  | Some order =>
      ∀ fs l,
        order = JObj fs →
        Js.assoc "payments" fs = Some (JArr l) →
        Js.assoc "id" fs ≫= key_of_json = Some k →
        if orderNumber_taken k order (orders db)
        then handleSuccessfulOperation now rand operation response db = (Ok tt, db)
        else
          ∃ stored,
            store_get k (orders (handleSuccessfulOperation now rand operation response db).2)
              = Some (JObj stored) ∧
            Js.assoc "payments" stored = Some (JArr (l ++ [response])) ∧
            Js.assoc "syncStatus" stored = Some (JStr "synced") ∧
            Js.assoc "cachedAt" stored = Some (JNum now)
  end.
Proof.
  intros Htype HorderId Htruthy Hkey.
  assert (handleSuccessfulOperation now rand operation response db
          = match store_get k (orders db) with
            | Some order =>
                try_catch (let! order' := push_payment response order in
                           cacheOrder now order') (λ _, ret tt) db
            | None => (Ok tt, db)
            end) as ->.
  { unfold handleSuccessfulOperation. rewrite Htype.
    rewrite (get_prop_not_null _ _ _ HorderId).
    cbv [bind ret try_catch get_order gets]. rewrite Htruthy, Hkey.
    by destruct (store_get k (orders db)). }
  destruct (store_get k (orders db)) as [order|] eqn:Hget; [|done].
  intros fs l -> Hpay Hid.
  unfold push_payment. cbn [Js.prop]. rewrite Hpay. cbn [Js.own_fields].
  set (paid := JObj (Js.set_field "payments" (JArr (l ++ [response])) fs)).
  assert (try_catch (let! order' := ret paid in cacheOrder now order') (λ _, ret tt) db
          = match cacheOrder now paid db with
            | (Ok a, st') => (Ok a, st')
            | (Throw _, st') => (Ok tt, st')
            end) as -> by reflexivity.
  rewrite cacheOrder_cases.
  assert (key_path_id (stamp_synced now paid) = Some k) as ->.
  { rewrite key_path_id_stamp_synced. unfold paid. cbn [Js.own_fields].
    rewrite assoc_set_field. cbn [String.eqb Ascii.eqb Bool.eqb]. exact Hid. }
  rewrite (orderNumber_taken_same_number k (JObj fs) (stamp_synced now paid)).
  2:{ rewrite orderNumber_key_stamp_synced. unfold paid, orderNumber_key.
      cbn [Js.own_fields Js.prop]. by rewrite assoc_set_field. }
  destruct (orderNumber_taken k (JObj fs) (orders db)); [done|].
  exists (Js.set_field "syncStatus" (JStr "synced")
            (Js.set_field "cachedAt" (JNum now)
               (Js.set_field "payments" (JArr (l ++ [response])) fs))).
  split.
  { unfold stamp_synced, paid. cbn [snd orders set_orders Js.own_fields].
    apply store_get_put. }
  split; [|split].
  - by rewrite 3!assoc_set_field.
  - by rewrite assoc_set_field.
  - by rewrite 2!assoc_set_field.
Qed.

Lemma handleSuccessfulOperation_payment_witness :
  let operation :=
    mkSyncOperation "sync-2-b" Payment Create JNull "/api/payments" "POST"
                    High 0 5 100 None in
  let response := JObj [("orderId", JStr "ord-9"); ("amount", JNum 2500)] in
  let db := (cacheOrder 1 (JObj [("id", JStr "ord-9"); ("payments", JArr [])]) empty_db).2 in
  type operation = Payment ∧
  Js.prop "orderId" response = Some (JStr "ord-9") ∧
  ∃ stored,
    store_get (KeyStr "ord-9")
      (orders (handleSuccessfulOperation 500 "a" operation response db).2)
      = Some (JObj stored) ∧
    Js.assoc "payments" stored = Some (JArr [response]).
Proof.
  cbv zeta. split; [reflexivity|]. split; [reflexivity|].
  pose proof (handleSuccessfulOperation_payment 500 "a"
           (mkSyncOperation "sync-2-b" Payment Create JNull "/api/payments" "POST"
                    High 0 5 100 None)
           (JObj [("orderId", JStr "ord-9"); ("amount", JNum 2500)])
           (JStr "ord-9") (KeyStr "ord-9")
           (cacheOrder 1 (JObj [("id", JStr "ord-9"); ("payments", JArr [])]) empty_db).2
           eq_refl eq_refl eq_refl eq_refl) as H.
  destruct (H _ [] eq_refl eq_refl eq_refl) as (stored & H1 & H2 & _).
  exists stored. by split.
Defined.

(** X14. [addOperation] appends a new object to the queue with
    [retryCount] 0 and leaves the queued operations in place and
    unchanged; when the new [id] is not that of a queued operation and
    [maxRetries] is positive, a queue whose operations have distinct
    ids and retries left is again such a queue. *)
Theorem addOperation_keeps_queue_ok
    (stringify : Json → string) (now : Z) (rand : string)
    (operation : NewOperation) (w : World) :
  queue_ok (syncQueue w) (heap w) →
  (∀ l o, l ∈ syncQueue w → heap w !! l = Some o →
          id o ≠ "sync-" +:+ toString now +:+ "-" +:+ rand) →
  0 < new_maxRetries operation →
  queue_ok (syncQueue (addOperation stringify now rand operation w))
           (heap (addOperation stringify now rand operation w)) ∧
  syncQueue (addOperation stringify now rand operation w)
    = syncQueue w ++ [fresh (dom (heap w))] ∧
  (∀ l, l ∈ syncQueue w →
        heap (addOperation stringify now rand operation w) !! l = heap w !! l) ∧
  (retryCount <$> heap (addOperation stringify now rand operation w)
                    !! fresh (dom (heap w))) = Some 0.
Proof.
  intros (Hnd & Halloc & Hids) Hnew Hmax.
  set (l0 := fresh (dom (heap w))).
  assert (heap w !! l0 = None) as Hfresh
    by (apply not_elem_of_dom; apply is_fresh).
  assert (∀ l, l ∈ syncQueue w → l ≠ l0) as Hne.
  { intros l Hl ->. destruct (Halloc _ Hl) as (o & Ho & _). congruence. }
  assert (heap (addOperation stringify now rand operation w)
          = <[l0 := mkSyncOperation ("sync-" +:+ toString now +:+ "-" +:+ rand)
                      (new_type operation) (new_action operation) (new_data operation)
                      (new_endpoint operation) (new_method operation)
                      (new_priority operation) 0 (new_maxRetries operation) now
                      (new_userId operation)]> (heap w)
          ∧ syncQueue (addOperation stringify now rand operation w) = syncQueue w ++ [l0])
    as [Hh Hsq].
  { unfold addOperation. cbv zeta. fold l0. by destruct (_ && _). }
  rewrite Hh, Hsq. split; [|split; [done|split]].
  - split; [|split].
    + apply NoDup_app. split; [done|]. split; [|apply NoDup_singleton].
      intros l Hl Hl0. apply list_elem_of_singleton in Hl0 as ->. by apply (Hne l0).
    + intros l [Hl|Hl]%elem_of_app.
      * rewrite lookup_insert_ne by (apply not_eq_sym, Hne, Hl). by apply Halloc.
      * apply list_elem_of_singleton in Hl as ->.
        rewrite lookup_insert_eq. eexists. split; [done|]. simpl. lia.
    + intros l1 l2 o1 o2 [Hl1|Hl1]%elem_of_app [Hl2|Hl2]%elem_of_app.
      * rewrite !lookup_insert_ne by (apply not_eq_sym, Hne; done). by apply Hids.
      * apply list_elem_of_singleton in Hl2 as ->.
        rewrite lookup_insert_ne by (apply not_eq_sym, Hne; done).
        rewrite lookup_insert_eq. intros H1 [= <-] Hid. simpl in Hid.
        by destruct (Hnew l1 o1 Hl1 H1).
      * apply list_elem_of_singleton in Hl1 as ->.
        rewrite lookup_insert_eq.
        rewrite lookup_insert_ne by (apply not_eq_sym, Hne; done).
        intros [= <-] H2 Hid. simpl in Hid.
        by destruct (Hnew l2 o2 Hl2 H2).
      * apply list_elem_of_singleton in Hl1 as ->.
        by apply list_elem_of_singleton in Hl2 as ->.
  - intros l Hl. rewrite lookup_insert_ne; [done|]. apply not_eq_sym, Hne, Hl.
  - by rewrite lookup_insert_eq.
Qed.

Lemma addOperation_keeps_queue_ok_witness :
  queue_ok (syncQueue idle) (heap idle) ∧
  0 < new_maxRetries
        (mkNewOperation Order Create order_data "/api/orders/create" "POST" High 5 None) ∧
  queue_ok (syncQueue one_order) (heap one_order).
Proof.
  assert (queue_ok (syncQueue idle) (heap idle)) as Hq.
  { split; [apply NoDup_nil_2|]. split.
    - intros l Hl. by apply elem_of_nil in Hl.
    - intros l1 l2 o1 o2 Hl1. by apply elem_of_nil in Hl1. }
  split; [exact Hq|]. split; [simpl; lia|].
  apply (addOperation_keeps_queue_ok stringify 100 "k3x9"
           (mkNewOperation Order Create order_data "/api/orders/create" "POST" High 5 None)
           idle Hq).
  - intros l o Hl. by apply elem_of_nil in Hl.
  - simpl. lia.
Defined.

End PaymentsAndEnqueue.

Section Reload.
Import Async OfflineStorage BackgroundSync Samples.

Lemma try_catch_ignore_state {St} (m : Async.M St unit) (st : St) :
  (try_catch m (λ _, ret tt) st).2 = (m st).2.
Proof. unfold try_catch. by destruct (m st) as [[[]|e] st']. Qed.

Lemma addOperation_storage (stringify : Json → string) (now : Z) (rand : string)
    (operation : NewOperation) (w : World) :
  storage (addOperation stringify now rand operation w)
  = (addFailedRequest
       (mkFailedRequest None (new_endpoint operation) (new_method operation)
          [("Content-Type", "application/json")]
          (if Js.truthy (new_data operation)
           then Some (stringify (new_data operation)) else None)
          now 0 (new_maxRetries operation)) (storage w)).2.
Proof.
  unfold addOperation, run_storage, storePendingOperation. cbv zeta.
  rewrite try_catch_ignore_state.
  by destruct (_ && _).
Qed.

(** X15. What a reload makes of a queued operation.  [addOperation]
    persists the operation under the next key [n] of the failed-request
    store, and [convertFailedRequestToOperation] turns that record back
    into an operation with the same endpoint, method, timestamp and
    (truthy) data and with [retryCount] 0; the reloaded [id] is [n]
    written in decimal, [type], [action] and [priority] are inferred
    from the URL and the method, [maxRetries] is 3 and there is no
    [userId]. *)
Theorem addOperation_reloads_from_storage
    (stringify : Json → string) (toUpperCase : string → string)
    (parse : string → option Json) (now now' : Z) (rand : string)
    (operation : NewOperation) (w : World) :
  (Js.truthy (new_data operation) = true →
   stringify (new_data operation) ≠ "" ∧
   parse (stringify (new_data operation)) = Some (new_data operation)) →
  ∃ request,
    store_get (KeyNum (failed_requests_next (storage w)))
              (failed_requests (storage (addOperation stringify now rand operation w)))
      = Some request ∧
    convertFailedRequestToOperation toUpperCase parse now' request
      = Some (mkSyncOperation
                (toString (failed_requests_next (storage w)))
                (inferOperationType (new_endpoint operation))
                (inferAction toUpperCase (new_method operation))
                (if Js.truthy (new_data operation) then new_data operation else JNull)
                (new_endpoint operation) (new_method operation)
                (inferPriority (new_endpoint operation))
                0 3 now None).
Proof.
  intros Hparse. rewrite addOperation_storage.
  unfold addFailedRequest, put_failed_request, modify.
  cbn [fr_id snd failed_requests set_failed_requests set_failed_requests_next].
  eexists. split; [apply store_get_put|].
  unfold convertFailedRequestToOperation, with_fr_id.
  cbn [fr_id OfflineStorage.body OfflineStorage.url OfflineStorage.method
       OfflineStorage.retryCount OfflineStorage.maxRetries OfflineStorage.timestamp].
  destruct (Js.truthy (new_data operation)) eqn:Htruthy; [|done].
  destruct (Hparse eq_refl) as [Hne Hp]. unfold parse_body.
  destruct (String.eqb_spec (stringify (new_data operation)) ""); [done|].
  by rewrite Hp.
Qed.

Lemma addOperation_reloads_from_storage_witness :
  (Js.truthy order_data = true →
   stringify order_data ≠ "" ∧ parse (stringify order_data) = Some order_data) ∧
  ∃ request,
    store_get (KeyNum 1)
      (failed_requests (storage (queueCartUpdate stringify 100 "k3x9" order_data idle)))
      = Some request ∧
    (type <$> convertFailedRequestToOperation toUpperCase parse 900 request) = Some Order ∧
    (maxRetries <$> convertFailedRequestToOperation toUpperCase parse 900 request) = Some 3.
Proof.
  assert (Js.truthy order_data = true →
          stringify order_data ≠ "" ∧ parse (stringify order_data) = Some order_data)
    as Hparse by (intros _; split; [discriminate|reflexivity]).
  split; [exact Hparse|].
  destruct (addOperation_reloads_from_storage stringify toUpperCase parse 100 900 "k3x9"
              (mkNewOperation Cart Update order_data "/api/orders/cart" "PUT" Medium 3 None)
              idle Hparse) as (request & Hget & Hconv).
  exists request. split; [exact Hget|]. rewrite Hconv. split; reflexivity.
Defined.

End Reload.

Section LoadQueue.
Import Async OfflineStorage BackgroundSync Samples.

Lemma enqueue_object_holds (w : World) (o : SyncOperation) (old : list SyncOperation) :
  Forall2 (λ l o', heap w !! l = Some o') (syncQueue w) old →
  Forall2 (λ l o', heap (enqueue_object w o) !! l = Some o')
          (syncQueue (enqueue_object w o)) (old ++ [o]) ∧
  fresh (dom (heap w)) ∉ syncQueue w.
Proof.
  intros Hall.
  assert (heap w !! fresh (dom (heap w)) = None) as Hfresh
    by (apply not_elem_of_dom, is_fresh).
  assert (fresh (dom (heap w)) ∉ syncQueue w) as Hne.
  { intros Hl. apply list_elem_of_lookup_1 in Hl as [i Hi].
    destruct (Forall2_lookup_l _ _ _ _ _ Hall Hi) as (o' & _ & Ho'). congruence. }
  split; [|done].
  unfold enqueue_object. cbn [syncQueue heap set_syncQueue set_heap].
  apply Forall2_app.
  - apply Forall2_same_length_lookup. split; [by eapply Forall2_length|].
    intros i l o' Hl Ho'. rewrite lookup_insert_ne.
    + by apply (Forall2_lookup_lr _ _ _ _ _ _ Hall Hl Ho').
    + intros <-. apply Hne. by eapply list_elem_of_lookup_2.
  - constructor; [|constructor]. by rewrite lookup_insert_eq.
Qed.

Lemma foldl_enqueue_object (operations : list SyncOperation) (w : World)
    (old : list SyncOperation) :
  NoDup (syncQueue w) →
  Forall2 (λ l o, heap w !! l = Some o) (syncQueue w) old →
  NoDup (syncQueue (foldl enqueue_object w operations)) ∧
  Forall2 (λ l o, heap (foldl enqueue_object w operations) !! l = Some o)
          (syncQueue (foldl enqueue_object w operations)) (old ++ operations) ∧
  storage (foldl enqueue_object w operations) = storage w ∧
  syncInProgress (foldl enqueue_object w operations) = syncInProgress w ∧
  onLine (foldl enqueue_object w operations) = onLine w ∧
  log (foldl enqueue_object w operations) = log w.
Proof.
  revert w old. induction operations as [|o operations IH]; intros w old Hnd Hall.
  - by rewrite app_nil_r.
  - cbn [foldl]. destruct (enqueue_object_holds w o old Hall) as [Hall' Hne].
    destruct (IH (enqueue_object w o) (old ++ [o])) as (H1 & H2 & H3 & H4 & H5 & H6).
    + unfold enqueue_object. cbn [syncQueue set_syncQueue].
      apply NoDup_app. split; [done|]. split; [|apply NoDup_singleton].
      intros l Hl Hl'. apply list_elem_of_singleton in Hl' as ->. done.
    + done.
    + rewrite <- app_assoc in H2. done.
Qed.

Lemma convert_fields (toUpperCase : string → string) (parse : string → option Json)
    (now : Z) (request : FailedRequest) (o : SyncOperation) :
  convertFailedRequestToOperation toUpperCase parse now request = Some o →
  retryCount o = OfflineStorage.retryCount request ∧
  maxRetries o = OfflineStorage.maxRetries request ∧
  (∀ n, fr_id request = Some n → id o = toString n).
Proof.
  unfold convertFailedRequestToOperation.
  destruct (parse_body parse (body request)) as [d|]; [|done].
  intros [= <-]. split; [done|]. split; [done|]. by intros n ->.
Qed.

(** X16. The queue that [loadPendingOperations] builds from storage.
    When the stored requests sit under numeric keys equal to their
    [id], in key order, each with retries left, and every body parses,
    the loaded queue holds one new object per stored request, in key
    order, and it is a queue whose operations have distinct ids and
    retries left; the store itself is not written. *)
Theorem loadPendingOperations_queue_ok
    (toUpperCase : string → string) (parse : string → option Json) (now : Z) (w : World) (operations : list SyncOperation) :
  queue_keyed (storage w) →
  key_ordered (failed_requests (storage w)) →
  Forall (λ request, OfflineStorage.retryCount request < OfflineStorage.maxRetries request)
         (store_getAll (failed_requests (storage w))) →
  mapM (convertFailedRequestToOperation toUpperCase parse now)
       (store_getAll (failed_requests (storage w))) = Some operations →
  queue_ok (syncQueue (loadPendingOperations toUpperCase parse now w))
           (heap (loadPendingOperations toUpperCase parse now w)) ∧
  Forall2 (λ l o, heap (loadPendingOperations toUpperCase parse now w) !! l = Some o)
          (syncQueue (loadPendingOperations toUpperCase parse now w)) operations ∧
  storage (loadPendingOperations toUpperCase parse now w) = storage w.
Proof.
  intros Hkeyed Hord Hleft Hmap. unfold loadPendingOperations. rewrite Hmap.
  destruct (foldl_enqueue_object operations (set_syncQueue [] w) [])
    as (Hnd & Hall & Hst & _); [apply NoDup_nil_2|constructor|].
  cbn [app] in Hall. split; [|done].
  apply mapM_Some in Hmap.
  set (w' := foldl enqueue_object (set_syncQueue [] w) operations) in *.
  assert (∀ i l o, syncQueue w' !! i = Some l → heap w' !! l = Some o →
                   operations !! i = Some o) as Hat.
  { intros i l o Hl Ho.
    destruct (Forall2_lookup_l _ _ _ _ _ Hall Hl) as (o' & Ho' & Hh). congruence. }
  assert (∀ i o, operations !! i = Some o →
            ∃ kr n, failed_requests (storage w) !! i = Some kr ∧
                    kr.1 = KeyNum n ∧ id o = toString n ∧
                    retryCount o < maxRetries o) as Hop.
  { intros i o Ho.
    destruct (Forall2_lookup_r _ _ _ _ _ Hmap Ho) as (request & Hr & Hconv).
    unfold store_getAll in Hr. apply list_lookup_fmap_Some in Hr as (kr & -> & Hkr).
    destruct (convert_fields _ _ _ _ _ Hconv) as (Hrc & Hmr & Hid).
    unfold queue_keyed in Hkeyed. rewrite Forall_forall in Hkeyed.
    destruct (Hkeyed kr) as (n & Hk & Hfr & _); [by eapply list_elem_of_lookup_2|].
    exists kr, n. split; [done|]. split; [done|]. split; [by apply Hid|].
    rewrite Hrc, Hmr. rewrite Forall_forall in Hleft. apply Hleft.
    unfold store_getAll. apply list_elem_of_fmap. exists kr. split; [done|].
    by eapply list_elem_of_lookup_2. }
  split; [done|]. split.
  - intros l Hl. apply list_elem_of_lookup_1 in Hl as [i Hi].
    destruct (Forall2_lookup_l _ _ _ _ _ Hall Hi) as (o & Ho & Hh).
    exists o. split; [done|]. by destruct (Hop i o Ho) as (? & ? & _ & _ & _ & ?).
  - intros l1 l2 o1 o2 Hl1 Hl2 Ho1 Ho2 Hid.
    apply list_elem_of_lookup_1 in Hl1 as [i1 Hi1].
    apply list_elem_of_lookup_1 in Hl2 as [i2 Hi2].
    destruct (Hop i1 o1 (Hat _ _ _ Hi1 Ho1)) as (kr1 & n1 & Hk1 & Hn1 & Hid1 & _).
    destruct (Hop i2 o2 (Hat _ _ _ Hi2 Ho2)) as (kr2 & n2 & Hk2 & Hn2 & Hid2 & _).
    assert (n1 = n2) as <-.
    { apply (inj pretty). unfold toString in *. congruence. }
    assert (i1 = i2) as <-.
    { apply (NoDup_lookup _ i1 i2 (KeyNum n1) (key_ordered_NoDup _ Hord));
        rewrite list_lookup_fmap; [rewrite Hk1|rewrite Hk2]; simpl; congruence. }
    congruence.
Qed.

Lemma loadPendingOperations_queue_ok_witness :
  queue_keyed (storage one_order) ∧
  key_ordered (failed_requests (storage one_order)) ∧
  length (syncQueue (loadPendingOperations toUpperCase parse 900 one_order)) = 1%nat.
Proof.
  assert (queue_keyed (storage one_order)) as Hkeyed.
  { repeat constructor. exists 1. split; [reflexivity|]. split; [reflexivity|].
    vm_compute. reflexivity. }
  assert (key_ordered (failed_requests (storage one_order))) as Hord
    by (repeat constructor).
  split; [exact Hkeyed|]. split; [exact Hord|].
  destruct (mapM (convertFailedRequestToOperation toUpperCase parse 900)
                 (store_getAll (failed_requests (storage one_order))))
    as [operations|] eqn:Hmap; [|discriminate Hmap].
  destruct (loadPendingOperations_queue_ok toUpperCase parse 900 one_order operations
              Hkeyed Hord) as (_ & Hall & _).
  - repeat constructor.
  - exact Hmap.
  - apply Forall2_length in Hall. rewrite Hall.
    injection Hmap as <-. reflexivity.
Defined.

End LoadQueue.

Section RetryInfo.
Import Async OfflineStorage BackgroundSync Samples.

Lemma find_operation_queued (l : loc) (o : SyncOperation) (w : World) :
  queue_ok (syncQueue w) (heap w) →
  l ∈ syncQueue w →
  heap w !! l = Some o →
  find_operation (id o) w = Some o.
Proof.
  intros (_ & Halloc & Hids) Hl Ho. unfold find_operation.
  assert (∀ l', l' ∈ syncQueue w → ∀ o', heap w !! l' = Some o' → id o' = id o → o' = o)
    as Huniq.
  { intros l' Hl' o' Ho' Hid.
    assert (l' = l) as -> by (by eapply Hids). congruence. }
  clear Hids Halloc. induction (syncQueue w) as [|l0 q IH]; [by apply elem_of_nil in Hl|].
  cbn [omap list_omap].
  destruct (heap w !! l0) as [o0|] eqn:Ho0.
  - cbn [find]. destruct (String.eqb_spec (id o0) (id o)) as [Heq|Hne].
    + f_equal. apply (Huniq l0); [left|done|done].
    + apply IH.
      * apply elem_of_cons in Hl as [->|Hl]; [congruence|done].
      * intros l' Hl'. apply Huniq. by right.
  - apply IH.
    + apply elem_of_cons in Hl as [->|Hl]; [congruence|done].
    + intros l' Hl'. apply Huniq. by right.
Qed.

Lemma queue_ok_singleton (l : loc) (o : SyncOperation) (h : gmap loc SyncOperation) :
  h !! l = Some o → retryCount o < maxRetries o → queue_ok [l] h.
Proof.
  intros Ho Hlt. split; [apply NoDup_singleton|]. split.
  - intros l' Hl'. apply list_elem_of_singleton in Hl' as ->. by exists o.
  - intros l1 l2 o1 o2 Hl1 Hl2 _ _ _.
    apply list_elem_of_singleton in Hl1 as ->.
    by apply list_elem_of_singleton in Hl2 as ->.
Qed.

Lemma retryDelays_next (n : Z) :
  0 ≤ n →
  (let i := Z.min n (Z.of_nat (length retryDelays) - 1) in
   if i <? 0 then None else retryDelays !! Z.to_nat i) = Some (retryDelay (n + 1)).
Proof.
  intros Hn. unfold retryDelay. cbv zeta.
  replace (n + 1 - 1) with n by lia.
  set (i := Z.min n (Z.of_nat (length retryDelays) - 1)).
  assert (0 ≤ i ≤ 4) as Hi by (subst i; simpl; lia).
  destruct (Z.ltb_spec i 0); [lia|].
  assert (Z.to_nat i = 0 ∨ Z.to_nat i = 1 ∨ Z.to_nat i = 2 ∨ Z.to_nat i = 3
          ∨ Z.to_nat i = 4)%nat as Hcases by lia.
  destruct Hcases as [->|[->|[->|[->| ->]]]]; reflexivity.
Qed.

(** X17. [getRetryInfo] on a queue whose operations have distinct ids
    and retries left: for the id of a queued operation it reports that
    operation's [retryCount] and [maxRetries] and, as [nextRetryIn],
    the entry of the delay ladder at index [min(retryCount, 4)].  That
    is the delay [performSync] schedules when the next attempt fails
    and leaves retries; when the next failure is the last one allowed,
    the operation is removed instead and nothing is scheduled, although
    [nextRetryIn] is reported all the same. *)
Theorem getRetryInfo_queued_operation (l : loc) (o : SyncOperation) (w : World) :
  queue_ok (syncQueue w) (heap w) →
  l ∈ syncQueue w →
  heap w !! l = Some o →
  0 ≤ retryCount o →
  ∃ delay,
    retryDelays !! Z.to_nat (Z.min (retryCount o) 4) = Some delay ∧
    getRetryInfo (id o) w
    = Some (mkRetryInfo (retryCount o) (maxRetries o) (Some delay)) ∧
    ∀ r, succeeds r = false →
         log (settle r l w).2
         = log w ++ [if retryCount o + 1 <? maxRetries o
                     then Schedule delay
                     else Notify SYNC_FAILED l (incr_retryCount o)].
Proof.
  intros Hq Hl Ho Hrc. exists (retryDelay (retryCount o + 1)).
  destruct (retryDelay_after_failure (retryCount o) Hrc) as [Hdelay _].
  split; [exact Hdelay|]. split.
  - unfold getRetryInfo. rewrite (find_operation_queued l o w Hq Hl Ho).
    destruct Hq as (_ & Halloc & _). destruct (Halloc l Hl) as (o' & Ho' & Hlt).
    assert (o' = o) as -> by congruence.
    destruct (Z.ltb_spec (retryCount o) (maxRetries o)); [|lia].
    by rewrite retryDelays_next.
  - intros r Hr. pose proof (settle_outcome r l o w Ho) as Hcases.
    rewrite Hr in Hcases. destruct Hcases as [_ Hcases].
    destruct (retryCount o + 1 <? maxRetries o); by destruct Hcases as [_ ->].
Qed.

(** After one failure the timer is set to a second, while [getRetryInfo]
    announces five. *)
Lemma getRetryInfo_queued_operation_witness :
  let w := (settle unavailable 0%nat one_order).2 in
  queue_ok (syncQueue w) (heap w) ∧
  0%nat ∈ syncQueue w ∧
  last (log w) = Some (Schedule 1000) ∧
  (nextRetryIn <$> getRetryInfo "sync-100-k3x9" w) = Some (Some 5000).
Proof.
  cbv zeta.
  set (o := mkSyncOperation "sync-100-k3x9" Order Create order_data
              "/api/orders/create" "POST" High 1 5 100 None).
  assert (syncQueue (settle unavailable 0%nat one_order).2 = [0%nat]) as Hqueue
    by (vm_compute; reflexivity).
  assert (heap (settle unavailable 0%nat one_order).2 !! 0%nat = Some o) as Ho
    by (vm_compute; reflexivity).
  assert (queue_ok (syncQueue (settle unavailable 0%nat one_order).2)
                   (heap (settle unavailable 0%nat one_order).2)) as Hq.
  { rewrite Hqueue. apply (queue_ok_singleton _ o); [exact Ho|simpl; lia]. }
  assert (0%nat ∈ syncQueue (settle unavailable 0%nat one_order).2) as Hl
    by (rewrite Hqueue; left).
  split; [exact Hq|]. split; [exact Hl|]. split; [vm_compute; reflexivity|].
  change "sync-100-k3x9" with (id o).
  destruct (getRetryInfo_queued_operation 0%nat o _ Hq Hl Ho) as (delay & Hdelay & -> & _);
    [simpl; lia|].
  simpl in *. congruence.
Defined.

End RetryInfo.

Section WorkerStore.
Import Async ServiceWorker Samples.




(** X19. What the network-first handler does not cache.  An answer
    that is not ok is handed on as it is, and Cache Storage is not
    called at all.  An ok answer for a URL outside [CACHE_API_ROUTES]
    is handed on once [caches.open] has resolved, and [put] is not
    called: the caches are as [caches.open] left them. *)
Theorem handleApiRequest_caches_nothing_else {C D : Type} (cs : CacheStorage C)
    (net : Request → NetResult) (request : Request) (r : Response) (st : State C D) :
  net request = Answers r →
  (ok r = false → handleApiRequest cs net request st = (Ok r, st)) ∧
  (ok r = true →
   existsb (λ route, Js.includes route (url request)) CACHE_API_ROUTES = false →
   ∀ c', storage_open cs DYNAMIC_CACHE (caches st) = (Ok tt, c') →
         handleApiRequest cs net request st = (Ok r, mkState c' (database st))).
Proof.
  intros Hnet. unfold handleApiRequest, try_catch, bind, fetch, on_caches. rewrite Hnet.
  cbv [ret]. cbv beta iota. split.
  - intros ->. reflexivity.
  - intros -> -> c' Hopen. cbv beta iota. by rewrite Hopen.
Qed.

Lemma handleApiRequest_caches_nothing_else_witness :
  let missing := mkResponse 404 [] (Text "Not found") in
  let orders := mkRequest "https://tiko.app/api/orders" "/api/orders" "GET" [] in
  let listed := mkResponse 200 [] (JsonText (JArr [])) in
  handleApiRequest empty_caches (λ _, Answers missing) api_request nothing_cached
  = (Ok missing, nothing_cached) ∧
  handleApiRequest empty_caches (λ _, Answers listed) orders nothing_cached
  = (Ok listed, nothing_cached).
Proof.
  cbv zeta. split.
  - exact (proj1 (handleApiRequest_caches_nothing_else empty_caches
                    (λ _, Answers (mkResponse 404 [] (Text "Not found")))
                    api_request _ nothing_cached eq_refl) eq_refl).
  - exact (proj2 (handleApiRequest_caches_nothing_else empty_caches
                    (λ _, Answers (mkResponse 200 [] (JsonText (JArr []))))
                    (mkRequest "https://tiko.app/api/orders" "/api/orders" "GET" [])
                    _ nothing_cached eq_refl) eq_refl eq_refl [] eq_refl).
Defined.



End WorkerStore.


Section ReminderStore.
Import Async OfflineStorage Notifications Samples.

(** The record [scheduleEventReminder] stores, and whether it takes the
    early return. *)
Lemma scheduleEventReminder_cases (getTime : string → option Z) (now : Z)
    (eventTitle eventDate eventId : string) (reminderTime : Z) (st : State) :
  scheduleEventReminder getTime now eventTitle eventDate eventId reminderTime st
  = (Ok tt,
     if match getTime eventDate with
        | Some t => t - reminderTime <=? now
        | None => false
        end
     then st
     else mkState
            (store_put
               (KeyStr ("reminder-" +:+ eventId +:+ "-" +:+ toString reminderTime))
               (mkScheduledNotification
                  ("reminder-" +:+ eventId +:+ "-" +:+ toString reminderTime)
                  eventTitle eventDate eventId
                  ((λ t, t - reminderTime) <$> getTime eventDate) "event-reminder")
               (scheduled st))
            (shown st)).
Proof.
  unfold scheduleEventReminder.
  destruct (getTime eventDate) as [t|]; cbn [fmap option_fmap option_map];
    [destruct (t - reminderTime <=? now)|]; reflexivity.
Qed.

(** X22. Asking again for a reminder never duplicates it: a second
    [scheduleEventReminder] with the same arguments, made no earlier
    than the first, leaves the stored reminders as the first call left
    them. *)
Theorem scheduleEventReminder_again_changes_nothing
    (getTime : string → option Z) (now now' : Z)
    (eventTitle eventDate eventId : string) (reminderTime : Z) (st : State) :
  now ≤ now' →
  (scheduleEventReminder getTime now' eventTitle eventDate eventId reminderTime
     (scheduleEventReminder getTime now eventTitle eventDate eventId reminderTime st).2).2
  = (scheduleEventReminder getTime now eventTitle eventDate eventId reminderTime st).2.
Proof.
  intros Hle. rewrite !scheduleEventReminder_cases. cbn [snd].
  destruct (getTime eventDate) as [t|]; cbn [fmap option_fmap option_map].
  - destruct (Z.leb_spec (t - reminderTime) now'); [done|].
    destruct (Z.leb_spec (t - reminderTime) now); [lia|].
    cbn [scheduled shown]. by rewrite store_put_put.
  - cbn [scheduled shown]. by rewrite store_put_put.
Qed.

Lemma scheduleEventReminder_again_changes_nothing_witness :
  0 ≤ 5 * minute ∧
  (scheduled
     (scheduleEventReminder getTime (5 * minute) "Concert" "2025-03-01T20:00:00"
        "evt-1" (10 * minute) reminder_scheduled).2).*1
  = [KeyStr "reminder-evt-1-600000"].
Proof.
  split; [vm_compute; discriminate|].
  unfold reminder_scheduled.
  rewrite (scheduleEventReminder_again_changes_nothing getTime 0 (5 * minute) "Concert"
             "2025-03-01T20:00:00" "evt-1" (10 * minute) no_reminders).
  - vm_compute. reflexivity.
  - vm_compute. discriminate.
Defined.

End ReminderStore.

Section ProviderReminders.
Import Async OfflineStorage Notifications Samples.

Lemma reminder_key_inj (eventId : string) (a b : Z) :
  KeyStr ("reminder-" +:+ eventId +:+ "-" +:+ toString a)
  = KeyStr ("reminder-" +:+ eventId +:+ "-" +:+ toString b) →
  a = b.
Proof.
  intros [= H]. apply (inj (String.app eventId)) in H.
  apply (inj (String.app "-")) in H. by apply (inj pretty) in H.
Qed.

Lemma scheduleEventReminder_lookup (getTime : string → option Z) (now : Z)
    (eventTitle eventDate eventId : string) (reminderTime other : Z) (st : State) :
  store_get (KeyStr ("reminder-" +:+ eventId +:+ "-" +:+ toString other))
    (scheduled
       (scheduleEventReminder getTime now eventTitle eventDate eventId reminderTime st).2)
  = if decide (other = reminderTime) then
      if match getTime eventDate with
         | Some t => t - reminderTime <=? now
         | None => false
         end
      then store_get (KeyStr ("reminder-" +:+ eventId +:+ "-" +:+ toString other))
                     (scheduled st)
      else Some (mkScheduledNotification
                   ("reminder-" +:+ eventId +:+ "-" +:+ toString reminderTime)
                   eventTitle eventDate eventId
                   ((λ t, t - reminderTime) <$> getTime eventDate) "event-reminder")
    else store_get (KeyStr ("reminder-" +:+ eventId +:+ "-" +:+ toString other))
                   (scheduled st).
Proof.
  rewrite scheduleEventReminder_cases. cbn [snd].
  destruct (decide (other = reminderTime)) as [->|Hne].
  - destruct (match getTime eventDate with Some t => _ | None => false end); [done|].
    cbn [scheduled]. apply store_get_put.
  - destruct (match getTime eventDate with Some t => _ | None => false end); [done|].
    cbn [scheduled]. apply store_get_put_other.
    intros Heq. by apply reminder_key_inj in Heq.
Qed.

Lemma bind_resolved {St A B} (m : Async.M St A) (k : A → Async.M St B) (st : St) (a : A) :
  (m st).1 = Ok a → bind m k st = k a (m st).2.
Proof. unfold bind. destruct (m st) as [[a'|e] st']; simpl; [by intros [= ->]|done]. Qed.

Lemma provider_scheduleEventReminder_turns (getTime : string → option Z) (clock : nat → Z)
    (eventId eventTitle eventDate : string) (st : State) :
  (PWAProvider.scheduleEventReminder getTime clock eventId eventTitle eventDate st).2
  = (scheduleEventReminder getTime (clock 2%nat) eventTitle eventDate eventId
       (30 * 60 * 1000)
       (scheduleEventReminder getTime (clock 1%nat) eventTitle eventDate eventId
          (2 * 60 * 60 * 1000)
          (scheduleEventReminder getTime (clock 0%nat) eventTitle eventDate eventId
             (24 * 60 * 60 * 1000) st).2).2).2.
Proof.
  unfold PWAProvider.scheduleEventReminder, PWAProvider.reminderTimes.
  cbn [imap for_each fst snd compose].
  rewrite !(bind_resolved _ _ _ tt) by (by rewrite scheduleEventReminder_cases).
  reflexivity.
Qed.

(** X23. The reminders the application asks for when a user wants to be
    reminded of an event.  For each of the three lead times (one day,
    two hours, thirty minutes) the reminder is stored under its own key
    exactly when its due time is still ahead at the moment its turn of
    the loop looks at the clock, or when the event date is not a valid
    date (the reminder then has no due time); a reminder whose due time
    has passed is skipped and whatever was stored under its key stays. *)
Theorem scheduleEventReminder_stores_reminders_ahead
    (getTime : string → option Z) (clock : nat → Z)
    (eventId eventTitle eventDate : string) (i : nat) (reminderTime : Z) (st : State) :
  PWAProvider.reminderTimes !! i = Some reminderTime →
  store_get (KeyStr ("reminder-" +:+ eventId +:+ "-" +:+ toString reminderTime))
    (scheduled
       (PWAProvider.scheduleEventReminder getTime clock eventId eventTitle eventDate st).2)
  = if match getTime eventDate with
       | Some t => t - reminderTime <=? clock i
       | None => false
       end
    then store_get (KeyStr ("reminder-" +:+ eventId +:+ "-" +:+ toString reminderTime))
                   (scheduled st)
    else Some (mkScheduledNotification
                 ("reminder-" +:+ eventId +:+ "-" +:+ toString reminderTime)
                 eventTitle eventDate eventId
                 ((λ t, t - reminderTime) <$> getTime eventDate) "event-reminder").
Proof.
  intros Hi. rewrite provider_scheduleEventReminder_turns.
  rewrite !scheduleEventReminder_lookup.
  unfold PWAProvider.reminderTimes in Hi.
  destruct i as [|[|[|i]]]; simplify_eq/=; reflexivity.
Qed.

Lemma scheduleEventReminder_stores_reminders_ahead_witness :
  PWAProvider.reminderTimes !! 2%nat = Some (30 * minute) ∧
  store_get (KeyStr "reminder-evt-1-1800000")
    (scheduled
       (PWAProvider.scheduleEventReminder getTime (λ _, 0) "evt-1" "Concert"
          "2025-03-01T20:00:00" no_reminders).2)
  = None.
Proof.
  split; [reflexivity|].
  exact (scheduleEventReminder_stores_reminders_ahead getTime (λ _, 0) "evt-1" "Concert"
           "2025-03-01T20:00:00" 2 (30 * minute) no_reminders eq_refl).
Defined.

End ProviderReminders.

Section TimeUntil.
Import Notifications Samples.

(** X24. [formatTimeUntil] names the largest unit that fits, rounded
    down: "now" when the event is less than a minute ahead (or past),
    whole minutes below an hour, whole hours below a day, whole days
    from there on. *)
Theorem formatTimeUntil_largest_unit
    (getTime : string → option Z) (now : Z) (eventDate : string) (event : Z) :
  getTime eventDate = Some event →
  formatTimeUntil getTime now eventDate
  = if event - now <? 60000 then "now"
    else if event - now <? 3600000 then
      "in " +:+ OfflineStorage.toString ((event - now) / 60000) +:+ " minute"
        +:+ plural ((event - now) / 60000)
    else if event - now <? 86400000 then
      "in " +:+ OfflineStorage.toString ((event - now) / 3600000) +:+ " hour"
        +:+ plural ((event - now) / 3600000)
    else
      "in " +:+ OfflineStorage.toString ((event - now) / 86400000) +:+ " day"
        +:+ plural ((event - now) / 86400000).
Proof.
  intros Hdate. unfold formatTimeUntil. rewrite Hdate. cbv zeta.
  change (1000 * 60 * 60 * 24) with 86400000.
  change (1000 * 60 * 60) with 3600000.
  change (1000 * 60) with 60000.
  set (diff := event - now).
  destruct (Z.ltb_spec diff 60000) as [Hm|Hm].
  - assert (diff / 86400000 ≤ 0) as Hd
      by (apply Z.lt_succ_r, Z.div_lt_upper_bound; lia).
    assert (Z.rem diff 86400000 / 3600000 ≤ 0) as Hh.
    { apply Z.lt_succ_r, Z.div_lt_upper_bound; [lia|].
      destruct (Z.le_gt_cases 0 diff).
      - rewrite Z.rem_small by lia. lia.
      - pose proof (Z.rem_nonpos diff 86400000). lia. }
    assert (Z.rem diff 3600000 / 60000 ≤ 0) as Hmin.
    { apply Z.lt_succ_r, Z.div_lt_upper_bound; [lia|].
      destruct (Z.le_gt_cases 0 diff).
      - rewrite Z.rem_small by lia. lia.
      - pose proof (Z.rem_nonpos diff 3600000). lia. }
    destruct (Z.ltb_spec 0 (diff / 86400000)); [lia|].
    destruct (Z.ltb_spec 0 (Z.rem diff 86400000 / 3600000)); [lia|].
    destruct (Z.ltb_spec 0 (Z.rem diff 3600000 / 60000)); [lia|]. done.
  - destruct (Z.ltb_spec diff 3600000) as [Hh|Hh].
    + rewrite (Z.div_small diff 86400000) by lia.
      rewrite (Z.rem_small diff 86400000) by lia.
      rewrite (Z.div_small diff 3600000) by lia.
      rewrite (Z.rem_small diff 3600000) by lia.
      cbn [Z.ltb Z.compare].
      assert (0 < diff / 60000) by (apply Z.div_str_pos; lia).
      destruct (Z.ltb_spec 0 (diff / 60000)); [done|lia].
    + destruct (Z.ltb_spec diff 86400000) as [Hd|Hd].
      * rewrite (Z.div_small diff 86400000) by lia.
        rewrite (Z.rem_small diff 86400000) by lia.
        cbn [Z.ltb Z.compare].
        assert (0 < diff / 3600000) by (apply Z.div_str_pos; lia).
        destruct (Z.ltb_spec 0 (diff / 3600000)); [done|lia].
      * assert (0 < diff / 86400000) by (apply Z.div_str_pos; lia).
        destruct (Z.ltb_spec 0 (diff / 86400000)); [done|lia].
Qed.

Lemma formatTimeUntil_largest_unit_witness :
  getTime "2025-03-01T20:00:00" = Some (20 * minute) ∧
  formatTimeUntil getTime 30000 "2025-03-01T20:00:00" = "in 19 minutes".
Proof.
  split; [reflexivity|].
  rewrite (formatTimeUntil_largest_unit getTime 30000 "2025-03-01T20:00:00" (20 * minute)
             eq_refl).
  vm_compute. reflexivity.
Defined.

End TimeUntil.

Section OrderAnswer.
Import Async OfflineStorage BackgroundSync Samples.




End OrderAnswer.


Section Optimistic.
Import Async OfflineStorage BackgroundSync Samples.

Lemma assoc_app_fields {A} (k : string) (l1 l2 : list (string * A)) :
  Js.assoc k (l1 ++ l2)
  = match Js.assoc k l1 with Some v => Some v | None => Js.assoc k l2 end.
Proof.
  induction l1 as [|[k' v'] l1 IH]; simpl; [done|].
  by destruct (String.eqb k k').
Qed.

(** In a spread the last source field of a name wins, and any source
    field wins over the target's. *)
Lemma assoc_assign (k : string) (target source : list (string * Json)) :
  Js.assoc k (assign target source)
  = match Js.assoc k (reverse source) with
    | Some v => Some v
    | None => Js.assoc k target
    end.
Proof.
  unfold assign. revert target. induction source as [|[k' v'] source IH]; intros target.
  - done.
  - cbn [foldl fst snd]. rewrite IH, reverse_cons, assoc_app_fields, assoc_set_field.
    destruct (Js.assoc k (reverse source)); [done|]. simpl.
    by destruct (String.eqb k k').
Qed.

(** X27. The optimistic stand-in for a queued order or payment: it is
    always flagged [isOptimistic] with [status] "pending", whatever the
    data say; its [id] is the data's own [id] when they have one and
    the temporary id otherwise; every other field is the data's. *)
Theorem createOptimisticResponse_order_fields (now : Z) (operation : SyncOperation) :
  type operation = Order ∨ type operation = Payment →
  ∃ fields,
    createOptimisticResponse now operation = JObj fields ∧
    Js.assoc "isOptimistic" fields = Some (JBool true) ∧
    Js.assoc "status" fields = Some (JStr "pending") ∧
    Js.assoc "id" fields
      = Some (default (JStr ("temp-" +:+ toString now))
                      (Js.assoc "id" (reverse (Js.own_fields (data operation))))) ∧
    ∀ k, k ≠ "isOptimistic" → k ≠ "status" → k ≠ "id" →
         Js.assoc k fields = Js.assoc k (reverse (Js.own_fields (data operation))).
Proof.
  intros Htype.
  exists (Js.set_field "isOptimistic" (JBool true)
            (Js.set_field "status" (JStr "pending")
               (assign [("id", JStr ("temp-" +:+ toString now))]
                       (Js.own_fields (data operation))))).
  split; [unfold createOptimisticResponse; by destruct Htype as [-> | ->]|].
  split; [by rewrite assoc_set_field|].
  split; [by rewrite 2!assoc_set_field|].
  split.
  - rewrite 2!assoc_set_field, assoc_assign. cbn [String.eqb Ascii.eqb Bool.eqb].
    by destruct (Js.assoc "id" (reverse _)).
  - intros k H1 H2 H3. rewrite 2!assoc_set_field, assoc_assign.
    destruct (String.eqb_spec k "isOptimistic"); [done|].
    destruct (String.eqb_spec k "status"); [done|].
    destruct (Js.assoc k (reverse _)); [done|]. simpl.
    by destruct (String.eqb_spec k "id").
Qed.

Lemma createOptimisticResponse_order_fields_witness :
  let operation :=
    mkSyncOperation "sync-1-a" Order Create
      (JObj [("id", JStr "ord-7"); ("status", JStr "paid")])
      "/api/orders/create" "POST" High 0 5 100 None in
  (type operation = Order ∨ type operation = Payment) ∧
  ∃ fields,
    createOptimisticResponse 900 operation = JObj fields ∧
    Js.assoc "id" fields = Some (JStr "ord-7") ∧
    Js.assoc "status" fields = Some (JStr "pending").
Proof.
  cbv zeta. split; [by left|].
  destruct (createOptimisticResponse_order_fields 900
              (mkSyncOperation "sync-1-a" Order Create
                 (JObj [("id", JStr "ord-7"); ("status", JStr "paid")])
                 "/api/orders/create" "POST" High 0 5 100 None) (or_introl eq_refl))
    as (fields & Hfields & _ & Hstatus & Hid & _).
  exists fields. split; [exact Hfields|]. split; [exact Hid|exact Hstatus].
Defined.

End Optimistic.
